(** * jira-bot: status-duration analysis ([own.py], class [JiraStatusAnalyzer])

    A shallow embedding of the analyzer's core: the changelog replay
    ([_get_status_changes]), the duration calculation
    ([_calculate_status_durations]), the paginated fetch
    ([get_issues_by_jql]), the batch driver ([analyze_multiple_issues]) and
    the accumulation loop of [print_aggregated_results].

    Modelling conventions.
    - A timezone-aware [datetime] is the instant it denotes, in microseconds
      since the epoch ([Z]); subtracting two of them gives a [timedelta],
      again in microseconds; comparison is comparison of instants.
    - Hours have two readings.  In the first, used throughout, they are
      exact rationals ([Qc]): [total_seconds() / 3600] and [+=] without
      rounding.  This reading is an idealisation of the Python floats, and
      what is stated of it is what does not depend on how sums of hours are
      rounded or regrouped: which keys a map has, signs, the value of a sum
      taken term by term, quotients.  In the second the calculation is
      given over any arithmetic of hours ([calculate_with]); binary64
      ([_calculate_status_durations_binary64]) is the arithmetic Python
      runs, and whatever relates the sum of a map to the elapsed time is
      stated of this reading.
    - A [Dict[str, float]] is a [gmap string Qc]; the [results] dictionary,
      whose iteration order the code relies on, is an insertion-ordered
      association list.
    - [datetime.now(pytz.UTC)] is the parameter [now]; [datetime.strptime]
      with the fixed format is the parameter [strptime] of the sections that
      need it.
    - Python exceptions are the [Raise] results of the error monad [Exc];
      [try ... except Exception] is a match on it.  The [while True] loop of
      the fetch takes fuel, and running out of it is [None]. *)

From Stdlib Require Import ZArith QArith Qcanon Qround List Permutation.
From Stdlib Require PrimFloat Uint63.
Import (notations) PrimFloat.
Import PrimFloat.PrimFloatNotations.
From stdpp Require Import base numbers option list sorting strings gmap fin_maps.

Local Open Scope string_scope.
Local Open Scope Z_scope.
Local Open Scope list_scope.

(** ** Time *)

(** [timedelta.total_seconds()]: microseconds over 10^6, as an exact
    rational. *)
Definition total_seconds (td : Z) : Qc := (Qc_of_Z td / Qc_of_Z 1000000)%Qc.

(** [(a - b).total_seconds() / 3600], as an exact rational; Python rounds
    the quotient to binary64, which is [hours_binary64] below. *)
Definition hours_between (a b : Z) : Qc := (total_seconds (a - b) / Qc_of_Z 3600)%Qc.

(** ** Status changes and the duration map *)

Record StatusChange : Type := mkChange {
  from_status : string;
  to_status : string;
  timestamp : Z
}.

(** [d[k] += x] on a [defaultdict(float)], with the exact sum; Python rounds
    the sum to binary64, which is [accrue_with] below at [PrimFloat.add]. *)
Definition accrue (k : string) (x : Qc) (d : gmap string Qc) : gmap string Qc :=
  <[k := (default 0%Qc (d !! k) + x)%Qc]> d.

(** The [for change in status_changes] loop of
    [_calculate_status_durations], with its three loop-carried variables. *)
Fixpoint replay (status_changes : list StatusChange)
    (current_status : string) (current_time : Z)
    (status_durations : gmap string Qc) : string * Z * gmap string Qc :=
  match status_changes with
  | [] => (current_status, current_time, status_durations)
  | change :: rest =>
      let duration := hours_between (timestamp change) current_time in
      replay rest (to_status change) (timestamp change)
             (accrue current_status duration status_durations)
  end.

Definition _calculate_status_durations (now : Z)
    (status_changes : list StatusChange) : gmap string Qc :=
  match status_changes with
  | [] => ∅
  | first :: _ =>
      let '(current_status, current_time, status_durations) :=
        replay status_changes "New Issues" (timestamp first) ∅ in
      if decide (current_status ≠ "Done")
      then accrue current_status (hours_between now current_time) status_durations
      else status_durations
  end.

(** Sum of all values of a duration map. *)
Definition sum_durations (d : gmap string Qc) : Qc :=
  map_fold (λ _ h acc, (h + acc)%Qc) 0%Qc d.


(** ** Exceptions *)

Inductive Exc (A : Type) : Type :=
  | Ok (a : A)
  | Raise (msg : string).
Arguments Ok {A} a.
Arguments Raise {A} msg.

Global Instance exc_bind : MBind Exc := λ A B k m,
  match m with
  | Ok a => k a
  | Raise msg => Raise msg
  end.

(** A list comprehension whose element expression may raise. *)
Fixpoint exc_map {A B : Type} (f : A → Exc B) (l : list A) : Exc (list B) :=
  match l with
  | [] => Ok []
  | a :: rest => b ← f a; bs ← exc_map f rest; Ok (b :: bs)
  end.

(** ** Python values *)

(** [v if v else dflt] and [v or dflt] on an optional string: [None] and the
    empty string are falsy. *)
Definition str_or (v : option string) (dflt : string) : string :=
  match v with
  | Some s => if decide (s = "") then dflt else s
  | None => dflt
  end.

(** [sorted(l, key=key)]: ascending by key and stable.  An element is placed
    before the first later element whose key is not smaller. *)
Section Sorted.
Context {A : Type} (key : A → Z).

Fixpoint insert_by (x : A) (l : list A) : list A :=
  match l with
  | [] => [x]
  | y :: rest =>
      if decide (key x ≤ key y) then x :: l else y :: insert_by x rest
  end.

Definition sorted (l : list A) : list A := foldr insert_by [] l.

(** Ascending by key: every element's key is at most that of every later
    element. *)
Definition ascending (l : list A) : Prop :=
  StronglySorted (λ a b, key a ≤ key b) l.
End Sorted.

(** An insertion-ordered [dict] with string keys: [d[k] = v] keeps the place
    of a key that is already there. *)
Fixpoint dict_set {V : Type} (k : string) (v : V) (d : list (string * V))
    : list (string * V) :=
  match d with
  | [] => [(k, v)]
  | (k', v') :: rest =>
      if decide (k' = k) then (k, v) :: rest else (k', v') :: dict_set k v rest
  end.

Fixpoint dict_get {V : Type} (k : string) (d : list (string * V)) : option V :=
  match d with
  | [] => None
  | (k', v') :: rest => if decide (k' = k) then Some v' else dict_get k rest
  end.

(** ** Issues as the JIRA client returns them *)

Record ChangeItem : Type := mkItem {
  item_field : string;            (* item.field *)
  fromString : option string;
  toString : option string
}.

Record History : Type := mkHistory {
  history_created : string;       (* history.created, unparsed *)
  history_items : list ChangeItem (* history.items *)
}.

Record Fields : Type := mkFields {
  summary : string;
  status_name : string;           (* fields.status.name *)
  created : string;
  customfields : gmap string (option string)
    (* the custom fields present on the issue; [Some None] is a null value *)
}.

Record Issue : Type := mkIssue {
  key : string;
  histories : list History;       (* issue.changelog.histories *)
  fields : Fields
}.

(** [getattr(issue.fields, custom_field_id, None)] for a custom field id. *)
Definition getattr_custom (f : Fields) (custom_field_id : string) : option string :=
  default None (customfields f !! custom_field_id).

(** ** [_get_status_changes] *)

Section Replayer.
Variable strptime : string → Exc Z.

(** The inner loop over [history.items]; the timestamp is parsed once per
    status item. *)
Fixpoint status_items (h : History) (items : list ChangeItem)
    : Exc (list StatusChange) :=
  match items with
  | [] => Ok []
  | item :: rest =>
      if decide (item_field item = "status") then
        t ← strptime (history_created h);
        tl ← status_items h rest;
        Ok (mkChange (str_or (fromString item) "None")
                     (str_or (toString item) "None") t :: tl)
      else status_items h rest
  end.

(** The outer loop over [issue.changelog.histories]: the list
    [status_changes] before it is sorted. *)
Fixpoint collect_status_changes (hs : list History) : Exc (list StatusChange) :=
  match hs with
  | [] => Ok []
  | h :: rest =>
      here ← status_items h (history_items h);
      tl ← collect_status_changes rest;
      Ok (here ++ tl)
  end.

Definition _get_status_changes (issue : Issue) : Exc (list StatusChange) :=
  status_changes ← collect_status_changes (histories issue);
  Ok (sorted timestamp status_changes).

(** [analyze_single_issue], after the issue has been fetched. *)
Definition analyze_issue (now : Z) (issue : Issue) : Exc (gmap string Qc) :=
  status_changes ← _get_status_changes issue;
  Ok (_calculate_status_durations now status_changes).
End Replayer.

(** ** The remote service *)

Record Jira : Type := mkJira {
  (* enhanced_search_issues(jql, maxResults=0, ...).total *)
  enhanced_search_total : string → Exc Z;
  (* GET /rest/api/3/search with jql, startAt, maxResults and fields,
     raise_for_status, json: the keys of data['issues'] *)
  search : string → Z → Z → string → Exc (list string);
  (* jira.issue(key, expand='changelog') *)
  jira_issue : string → Exc Issue
}.

Section Fetcher.
Variable jira : Jira.

Definition analyze_single_issue (strptime : string → Exc Z) (now : Z)
    (issue_key : string) : Exc (gmap string Qc) :=
  issue ← jira_issue jira issue_key;
  analyze_issue strptime now issue.

(** The body of the [try] inside the loop, up to the list comprehension. *)
Definition fetch_page (jql_query : string) (start_at max_results_per_page : Z)
    (custom_field_id : string) : Exc (list Issue) :=
  let fields_param :=
    String.append "summary,status," (String.append custom_field_id ",created") in
  raws ← search jira jql_query start_at max_results_per_page fields_param;
  exc_map (jira_issue jira) raws.

(** The [while True] loop. *)
Fixpoint fetch_loop (fuel : nat) (jql_query : string)
    (max_results_per_page : Z) (custom_field_id : string) (total_issues : Z)
    (all_issues : list Issue) (start_at : Z) : option (list Issue) :=
  match fuel with
  | O => None
  | S fuel' =>
      match fetch_page jql_query start_at max_results_per_page custom_field_id with
      | Raise _ => Some all_issues
      | Ok issues_page =>
          let all_issues := all_issues ++ issues_page in
          if decide (total_issues ≤ Z.of_nat (length all_issues))
          then Some all_issues
          else fetch_loop fuel' jql_query max_results_per_page custom_field_id
                          total_issues all_issues
                          (start_at + max_results_per_page)
      end
  end.

Definition get_issues_by_jql (fuel : nat) (jql_query : string)
    (max_results_per_page : Z) (custom_field_id : string)
    : option (Exc (list Issue)) :=
  match enhanced_search_total jira jql_query with
  | Raise _ => Some (Ok [])
  | Ok total_issues =>
      Ok <$> fetch_loop fuel jql_query max_results_per_page custom_field_id
                        total_issues [] 0
  end.
End Fetcher.

(** ** [analyze_multiple_issues] *)

Record IssueData : Type := mkData {
  durations : gmap string Qc;
  data_summary : string;
  grouping_field_value : option string;
  grouping_field_name : string;
  current_status : string;
  data_created : string
}.

Section Batch.
Variable strptime : string → Exc Z.
(** [clock i] is what [datetime.now(pytz.UTC)] reads while the [i]-th
    issue (counted from 1, as [enumerate(issues, 1)] does) is processed. *)
Variable clock : nat → Z.
Variables custom_field_id grouping_field_name' : string.

(** The body of the per-issue [try]. *)
Definition process_issue (now : Z) (issue : Issue) : Exc IssueData :=
  status_changes ← _get_status_changes strptime issue;
  let durations := _calculate_status_durations now status_changes in
  let custom_field_value := getattr_custom (fields issue) custom_field_id in
  Ok (mkData durations (summary (fields issue)) custom_field_value
             grouping_field_name' (status_name (fields issue))
             (created (fields issue))).

Fixpoint analyze_loop (i : nat) (issues : list Issue)
    (results : list (string * IssueData)) : list (string * IssueData) :=
  match issues with
  | [] => results
  | issue :: rest =>
      match process_issue (clock i) issue with
      | Ok data => analyze_loop (S i) rest (dict_set (key issue) data results)
      | Raise _ => analyze_loop (S i) rest results
      end
  end.

Definition analyze_multiple_issues (jira : Jira) (fuel : nat)
    (jql_query : string) (max_results_per_page : Z)
    : option (list (string * IssueData)) :=
  fetched ← get_issues_by_jql jira fuel jql_query max_results_per_page
                              custom_field_id;
  match fetched with
  | Raise _ => Some []
  | Ok issues => Some (analyze_loop 1 issues [])
  end.
End Batch.

(** ** The accumulation of [print_aggregated_results] *)

Definition EXPECTED_STATUSES : list string :=
  [ "New"; "New Issues"; "Ready For Specification"; "Product specification";
    "Refinement"; "Ready to Plan"; "Ready for Development";
    "Missing information"; "In Progress"; "Waiting for Code Review";
    "Code Review"; "Ready for QA"; "In Testing"; "Testing Complete";
    "Passed"; "Failed"; "Dev Ready/Complete"; "Done w/o dev"; "Done";
    "On Hold" ].

(** An entry of [aggregated]. *)
Record StatusAgg : Type := mkAgg {
  agg_total_hours : Qc;
  agg_count : nat
}.

(** An entry of [category_stats]. *)
Record CategoryStats : Type := mkStats {
  total_hours : Qc;
  count : nat;
  issues : list string;
  status_totals : gmap string Qc
}.

(** The values the two [defaultdict]s create for a missing key, and the
    reads [aggregated[status]] and [category_stats[category]]. *)
Definition agg_default : StatusAgg := mkAgg 0%Qc 0.
Definition stats_default : CategoryStats := mkStats 0%Qc 0 [] ∅.

Definition getitem_agg (aggregated : gmap string StatusAgg) (status : string)
    : StatusAgg :=
  default agg_default (aggregated !! status).

Definition getitem_stats (category_stats : gmap string CategoryStats)
    (category : string) : CategoryStats :=
  default stats_default (category_stats !! category).

Record AggState : Type := mkState {
  aggregated : gmap string StatusAgg;
  category_stats : gmap string CategoryStats;
  grand_total_hours : Qc
}.

(** [issue_data['grouping_field_value'] or 'Not Set'] *)
Definition category_of (issue_data : IssueData) : string :=
  str_or (grouping_field_value issue_data) "Not Set".

(** One round of [for status, hours in issue_data['durations'].items()].
    The totals are accumulated as exact sums here and in [add_issue]; a
    total is stated below to be the sum of what was added to it, term by
    term, and totals accumulated apart are not stated to agree. *)
Definition add_status (category : string)
    (acc : gmap string StatusAgg * gmap string CategoryStats * Qc)
    (entry : string * Qc)
    : gmap string StatusAgg * gmap string CategoryStats * Qc :=
  let '(aggregated, category_stats, issue_total) := acc in
  let '(status, hours) := entry in
  let a := getitem_agg aggregated status in
  let aggregated :=
    <[status := mkAgg (agg_total_hours a + hours)%Qc (S (agg_count a))]> aggregated in
  let st := getitem_stats category_stats category in
  let category_stats :=
    <[category := mkStats (total_hours st) (count st) (issues st)
                          (accrue status hours (status_totals st))]> category_stats in
  (aggregated, category_stats, (issue_total + hours)%Qc).

(** One round of [for issue_key, issue_data in results.items()]. *)
Definition add_issue (acc : AggState) (entry : string * IssueData) : AggState :=
  let '(issue_key, issue_data) := entry in
  let category := category_of issue_data in
  let '(aggregated, category_stats, issue_total) :=
    foldl (add_status category)
          (aggregated acc, category_stats acc, 0%Qc)
          (map_to_list (durations issue_data)) in
  let st := getitem_stats category_stats category in
  let category_stats :=
    <[category := mkStats (total_hours st + issue_total)%Qc (S (count st))
                          (issues st ++ [issue_key]) (status_totals st)]>
      category_stats in
  mkState aggregated category_stats (grand_total_hours acc + issue_total)%Qc.

Definition aggregate (results : list (string * IssueData)) : AggState :=
  foldl add_issue (mkState ∅ ∅ 0%Qc) results.

(** "Overall time spent in each status": for every expected status present
    in [aggregated], its name, its total and its average. *)
Definition overall_status_report (results : list (string * IssueData))
    : list (string * Qc * Qc) :=
  match results with
  | [] => []
  | _ =>
      let aggregated := aggregated (aggregate results) in
      omap (λ status,
              a ← aggregated !! status;
              Some (status, agg_total_hours a,
                    (agg_total_hours a / Qc_of_Z (Z.of_nat (agg_count a)))%Qc))
           EXPECTED_STATUSES
  end.

(** Sum of [count] over all category buckets. *)
Definition sum_counts (cs : gmap string CategoryStats) : nat :=
  map_fold (λ _ st acc, (count st + acc)%nat) 0%nat cs.

(** ** Quantities the statements below are about *)

Definition Qc_sum (l : list Qc) : Qc := foldr Qcplus 0%Qc l.

(** The tickets whose duration map has an entry for [status], the hours
    those entries add up to, and the tickets whose entry is positive. *)
Definition tickets_with_status (status : string)
    (results : list (string * IssueData)) : list (string * IssueData) :=
  filter (λ e, is_Some (durations e.2 !! status)) results.

Definition status_total (status : string)
    (results : list (string * IssueData)) : Qc :=
  Qc_sum ((λ e, default 0%Qc (durations e.2 !! status)) <$> results).

Definition tickets_with_time (status : string)
    (results : list (string * IssueData)) : list (string * IssueData) :=
  filter (λ e, (0 < default 0 (durations e.2 !! status))%Qc) results.

(** The keys of the tickets of a category, in the order of [results]. *)
Definition keys_in_category (category : string)
    (results : list (string * IssueData)) : list string :=
  (filter (λ e, category_of e.2 = category) results).*1.

(** ** Sample data *)

(** One hour, in microseconds. *)
Definition hour : Z := 3600000000.

(** [datetime.strptime(s, '%Y-%m-%dT%H:%M:%S.%f%z')] on five timestamps of
    1 and 2 January 2024 (00:00, 02:00, 05:00 and 10:00, and 02:00 of the
    next day, all UTC); every other string is taken as malformed. *)
Definition t0 : Z := 1704067200000000.

Definition strptime_sample (s : string) : Exc Z :=
  if decide (s = "2024-01-01T00:00:00.000+0000") then Ok t0
  else if decide (s = "2024-01-01T02:00:00.000+0000") then Ok (t0 + 2 * hour)
  else if decide (s = "2024-01-01T05:00:00.000+0000") then Ok (t0 + 5 * hour)
  else if decide (s = "2024-01-01T10:00:00.000+0000") then Ok (t0 + 10 * hour)
  else if decide (s = "2024-01-02T02:00:00.000+0000") then Ok (t0 + 26 * hour)
  else Raise "time data does not match format".

(** The scenario of a ticket that enters New Issues at [t], In Progress two
    hours later and Done a day after that. *)
Definition scenario_changes (t : Z) : list StatusChange :=
  [ mkChange "None" "New Issues" t;
    mkChange "New Issues" "In Progress" (t + 2 * hour);
    mkChange "In Progress" "Done" (t + 26 * hour) ].

Definition status_item (from to : string) : ChangeItem :=
  mkItem "status" (Some from) (Some to).

Definition sample_fields (created_at : string) (category : option string) : Fields :=
  mkFields "a summary" "Done" created_at
           {[ "customfield_10476" := category ]}.

(** New Issues at 00:00, In Progress at 02:00, Done at 02:00 the next day;
    the changelog lists the histories newest first, as the service does. *)
Definition issue_done : Issue :=
  mkIssue "CN-1"
    [ mkHistory "2024-01-02T02:00:00.000+0000" [status_item "In Progress" "Done"];
      mkHistory "2024-01-01T02:00:00.000+0000" [status_item "New Issues" "In Progress"];
      mkHistory "2024-01-01T00:00:00.000+0000"
                [mkItem "status" None (Some "New Issues")] ]
    (sample_fields "2024-01-01T00:00:00.000+0000" (Some "Growth")).

(** Created at 00:00, moved from New to In Progress at 05:00. *)
Definition issue_open : Issue :=
  mkIssue "CN-2"
    [ mkHistory "2024-01-01T05:00:00.000+0000" [status_item "New" "In Progress"] ]
    (sample_fields "2024-01-01T00:00:00.000+0000" None).

(** No status change at all. *)
Definition issue_untouched : Issue :=
  mkIssue "CN-3"
    [ mkHistory "2024-01-01T05:00:00.000+0000" [mkItem "assignee" None (Some "someone")] ]
    (sample_fields "2024-01-01T00:00:00.000+0000" None).

(** A status change whose timestamp does not parse. *)
Definition issue_malformed : Issue :=
  mkIssue "CN-4"
    [ mkHistory "yesterday" [status_item "New Issues" "In Progress"] ]
    (sample_fields "2024-01-01T00:00:00.000+0000" (Some "Growth")).

(** A service with five matching issues in pages of two, whose second page
    fails. *)
Definition jira_sample : Jira :=
  mkJira (λ _, Ok 5)
         (λ _ start_at _ _,
            if decide (start_at = 0) then Ok ["CN-1"; "CN-4"]
            else if decide (start_at = 2) then Raise "500 Server Error"
            else Ok ["CN-2"])
         (λ k, if decide (k = "CN-1") then Ok issue_done
               else if decide (k = "CN-2") then Ok issue_open
               else if decide (k = "CN-4") then Ok issue_malformed
               else Raise "404 Not Found").

(** The data [process_issue] builds for a ticket, from its duration map. *)
Definition data_of (issue : Issue) (d : gmap string Qc) : IssueData :=
  mkData d (summary (fields issue))
         (getattr_custom (fields issue) "customfield_10476") "Idea Category"
         (status_name (fields issue)) (created (fields issue)).

(** The first two sample tickets, analyzed at 10:00 of the first day. *)
Definition results_replayed : list (string * IssueData) :=
  [ ("CN-1", data_of issue_done
       (_calculate_status_durations (t0 + 10 * hour) (scenario_changes t0)));
    ("CN-2", data_of issue_open
       (_calculate_status_durations (t0 + 10 * hour)
          [mkChange "New" "In Progress" (t0 + 5 * hour)])) ].

(** Two analyzed tickets: one spent no time in New Issues, one four hours. *)
Definition results_sample : list (string * IssueData) :=
  [ ("CN-2", mkData {[ "New Issues" := 0%Qc; "In Progress" := Qc_of_Z 5 ]}
                    "a summary" None "Idea Category" "In Progress"
                    "2024-01-01T00:00:00.000+0000");
    ("CN-5", mkData {[ "New Issues" := Qc_of_Z 4 ]}
                    "a summary" (Some "Growth") "Idea Category" "New Issues"
                    "2024-01-01T00:00:00.000+0000") ].

(** ** [_format_time] and [print_status_durations] *)

(** What [_format_time] renders: days and remaining hours, or hours alone.
    The rounding of the rendered number to one decimal is left to the
    renderer. *)
Inductive TimeText : Type :=
  | DaysAndHours (days : Z) (remaining_hours : Qc)
  | HoursOnly (hours : Qc).

(** [int(hours // 24)] and [hours % 24]: floor division and the remainder
    that goes with it. *)
Definition days_of (hours : Qc) : Z := Qfloor (hours / Qc_of_Z 24)%Qc.

Definition remaining_hours_of (hours : Qc) : Qc :=
  (hours - Qc_of_Z 24 * Qc_of_Z (days_of hours))%Qc.

Definition _format_time (hours : Qc) : TimeText :=
  let days := days_of hours in
  let remaining_hours := remaining_hours_of hours in
  if decide (0 < days) then DaysAndHours days remaining_hours
  else HoursOnly hours.

(** [print_status_durations]: the line of every expected status, the total
    over the expected statuses, the statuses of the map that are not
    expected, and the total once their hours are added. *)
Definition expected_lines (d : gmap string Qc) : list (string * TimeText) :=
  (λ status, (status, _format_time (default 0%Qc (d !! status))))
    <$> EXPECTED_STATUSES.

Definition expected_total (d : gmap string Qc) : Qc :=
  foldl (λ total status, (total + default 0 (d !! status))%Qc) 0%Qc
        EXPECTED_STATUSES.

Definition unexpected_statuses (d : gmap string Qc) : gset string :=
  dom d ∖ list_to_set EXPECTED_STATUSES.

Definition total_including_unexpected (d : gmap string Qc) : Qc :=
  set_fold (λ status total, (total + default 0 (d !! status))%Qc)
           (expected_total d) (unexpected_statuses d).

(** The totals [print_status_durations] prints: "Total time" and, only when
    there are unexpected statuses, "Total time (including unexpected
    statuses)". *)
Definition printed_totals (d : gmap string Qc) : TimeText * option TimeText :=
  (_format_time (expected_total d),
   if decide (unexpected_statuses d = ∅) then None
   else Some (_format_time (total_including_unexpected d))).

(** ** The rest of [print_aggregated_results] *)

(** [stats['total_hours'] / stats['count'] if stats['count'] > 0 else 0] *)
Definition time_to_market (stats : CategoryStats) : Qc :=
  if decide (0 < count stats)%nat
  then (total_hours stats / Qc_of_Z (Z.of_nat (count stats)))%Qc
  else 0%Qc.

(** [grand_total_hours / len(results) if results else 0] *)
Definition grand_average (results : list (string * IssueData)) : Qc :=
  match results with
  | [] => 0%Qc
  | _ => (grand_total_hours (aggregate results)
          / Qc_of_Z (Z.of_nat (length results)))%Qc
  end.

(** The tickets of a category, and the hours of a list of tickets: all of
    them, and those in one status. *)
Definition tickets_in_category (category : string)
    (results : list (string * IssueData)) : list (string * IssueData) :=
  filter (λ e, category_of e.2 = category) results.

Definition tickets_total (results : list (string * IssueData)) : Qc :=
  Qc_sum ((λ e, sum_durations (durations e.2)) <$> results).

(** ** [run_analysis] *)

(** [GROUPING_OPTIONS]: field id, field name and description of a mode. *)
Definition GROUPING_OPTIONS (grouping_mode : string)
    : option (string * string * string) :=
  if decide (grouping_mode = "impact") then
    Some ("customfield_10068", "Impact",
          "Group by Impact level (Low, Medium, High)")
  else if decide (grouping_mode = "idea_category") then
    Some ("customfield_10476", "Idea Category", "Group by Idea Category")
  else None.

(** The value [run_analysis] returns: nothing for a mode that is not an
    option, the results of the analysis otherwise.  The outer [option] is
    the fuel of the fetch. *)
Definition run_analysis (strptime : string → Exc Z) (clock : nat → Z)
    (jira : Jira) (fuel : nat) (jql_query grouping_mode : string)
    (max_results_per_page : Z)
    : option (option (list (string * IssueData))) :=
  match GROUPING_OPTIONS grouping_mode with
  | None => Some None
  | Some (field_id, field_name, _) =>
      results ← analyze_multiple_issues strptime clock field_id field_name
                  jira fuel jql_query max_results_per_page;
      Some (Some results)
  end.

(** ** More sample services *)

(** Three matching issues in pages of two, all of which arrive. *)
Definition jira_complete : Jira :=
  mkJira (λ _, Ok 3)
         (λ _ start_at _ _,
            if decide (start_at = 0) then Ok ["CN-1"; "CN-2"] else Ok ["CN-4"])
         (jira_issue jira_sample).

(** A service that reports three matches and answers every search with an
    empty page. *)
Definition jira_empty_pages : Jira :=
  mkJira (λ _, Ok 3) (λ _ _ _ _, Ok []) (jira_issue jira_sample).

(** A service whose first page names an issue that cannot be fetched. *)
Definition jira_missing_issue : Jira :=
  mkJira (λ _, Ok 2) (λ _ _ _ _, Ok ["CN-1"; "CN-9"]) (jira_issue jira_sample).

(** The wall clock of a batch that starts at 10:00 and takes an hour per
    ticket. *)
Definition clock_sample (i : nat) : Z := t0 + (10 + Z.of_nat i) * hour.

(** A service whose only page names the same issue twice. *)
Definition jira_duplicates : Jira :=
  mkJira (λ _, Ok 2) (λ _ _ _ _, Ok ["CN-2"; "CN-2"]) (jira_issue jira_sample).

(** ** The duration calculation over any arithmetic of hours

    [_calculate_status_durations] once more, with the arithmetic of hours
    left open: [zero] is [0.0], [add] is the [+] of [d[k] += x], and
    [hours_of td] is [td.total_seconds() / 3600] of a [timedelta] of [td]
    microseconds.  With exact rationals this is the calculation above; with
    binary64 it is the calculation as Python runs it. *)
Section Arithmetic.
Context {H : Type} (zero : H) (add : H → H → H) (hours_of : Z → H).

Definition accrue_with (k : string) (x : H) (d : gmap string H) : gmap string H :=
  <[k := add (default zero (d !! k)) x]> d.

Fixpoint replay_with (status_changes : list StatusChange)
    (current_status : string) (current_time : Z)
    (status_durations : gmap string H) : string * Z * gmap string H :=
  match status_changes with
  | [] => (current_status, current_time, status_durations)
  | change :: rest =>
      let duration := hours_of (timestamp change - current_time) in
      replay_with rest (to_status change) (timestamp change)
                  (accrue_with current_status duration status_durations)
  end.

Definition calculate_with (now : Z) (status_changes : list StatusChange)
    : gmap string H :=
  match status_changes with
  | [] => ∅
  | first :: _ =>
      let '(current_status, current_time, status_durations) :=
        replay_with status_changes "New Issues" (timestamp first) ∅ in
      if decide (current_status ≠ "Done")
      then accrue_with current_status (hours_of (now - current_time))
                       status_durations
      else status_durations
  end.

(** [analyze_single_issue], after the issue has been fetched. *)
Definition analyze_issue_with (strptime : string → Exc Z) (now : Z)
    (issue : Issue) : Exc (gmap string H) :=
  status_changes ← _get_status_changes strptime issue;
  Ok (calculate_with now status_changes).

(** The values of a map added up, starting from [zero]. *)
Definition sum_with (d : gmap string H) : H :=
  map_fold (λ _ h acc, add acc h) zero d.

(** [d[status] += hours_of td] for every [(status, td)] of [a], one after
    the other, starting from the map [d]. *)
Definition accrue_all (a : list (string * Z)) (d : gmap string H) : gmap string H :=
  foldl (λ d e, accrue_with e.1 (hours_of e.2) d) d a.
End Arithmetic.

(** The arithmetic of Python floats.  An [int] below 2^53 in absolute value
    converts to binary64 without rounding, and the true division of two
    such [int]s is the binary64 division of their conversions; timedeltas
    stay below 2^53 microseconds for 285 years. *)
Definition float_of_Z (z : Z) : PrimFloat.float :=
  match z with
  | Z0 => PrimFloat.zero
  | Zpos _ => PrimFloat.of_uint63 (Uint63.of_Z z)
  | Zneg p => PrimFloat.opp (PrimFloat.of_uint63 (Uint63.of_Z (Zpos p)))
  end.

(** [td.total_seconds() / 3600] in binary64 *)
Definition hours_binary64 (td : Z) : PrimFloat.float :=
  (float_of_Z td / float_of_Z 1000000 / float_of_Z 3600)%float.

Definition _calculate_status_durations_binary64 (now : Z)
    (status_changes : list StatusChange) : gmap string PrimFloat.float :=
  calculate_with PrimFloat.zero PrimFloat.add hours_binary64 now status_changes.

(** [td.total_seconds() / 3600] in exact rationals *)
Definition hours_exact (td : Z) : Qc := (total_seconds td / Qc_of_Z 3600)%Qc.

(** The accruals of the calculation, in the order of the loop: the status
    that gets hours and the [timedelta], in microseconds, whose hours it
    gets.  One per round of the loop, and one more up to [now] unless the
    last change leads to "Done". *)
Fixpoint replay_accruals (status_changes : list StatusChange)
    (current_status : string) (current_time : Z) : list (string * Z) :=
  match status_changes with
  | [] => []
  | change :: rest =>
      (current_status, timestamp change - current_time)
        :: replay_accruals rest (to_status change) (timestamp change)
  end.

Definition accruals (now : Z) (status_changes : list StatusChange)
    : list (string * Z) :=
  match status_changes with
  | [] => []
  | first :: _ =>
      replay_accruals status_changes "New Issues" (timestamp first)
      ++ match last status_changes with
         | Some final =>
             if decide (to_status final ≠ "Done")
             then [(to_status final, now - timestamp final)] else []
         | None => []
         end
  end.

(** The length of the time the accruals cover, in microseconds. *)
Definition total_timedelta (a : list (string * Z)) : Z :=
  foldr (λ e acc, e.2 + acc) 0 a.

(** The timedeltas accrued to one status, in the order of the accruals. *)
Definition timedeltas_of (status : string) (a : list (string * Z)) : list Z :=
  (filter (λ e, e.1 = status) a).*2.

(** Where the accruals end: at the last change when it leads to "Done", at
    [now] otherwise. *)
Definition accrual_end (now : Z) (final : StatusChange) : Z :=
  if decide (to_status final = "Done") then timestamp final else now.

(** A ticket that spends 6 minutes in New Issues and 12 minutes In
    Progress before it is Done. *)
Definition minute : Z := 60000000.

Definition rounding_changes : list StatusChange :=
  [ mkChange "None" "New Issues" t0;
    mkChange "New Issues" "In Progress" (t0 + 6 * minute);
    mkChange "In Progress" "Done" (t0 + 18 * minute) ].

(** ** What the replayer reads from the changelog *)

(** [name] is what an optional string of the changelog is read as: itself,
    or "None" when it is missing or empty. *)
Definition reads_as (v : option string) (name : string) : Prop :=
  (v = None ∨ v = Some "" → name = "None")
  ∧ (∀ s, v = Some s → s ≠ "" → name = s).

(** The items of a changelog whose field is "status", each with its
    history, in the order of the changelog. *)
Definition status_entries (hs : list History) : list (History * ChangeItem) :=
  hs ≫= λ h, (λ item, (h, item))
               <$> filter (λ item, item_field item = "status") (history_items h).

(** The change [c] is the reading of the status item [e.2] of history
    [e.1]. *)
Definition change_reads (strptime : string → Exc Z) (c : StatusChange)
    (e : History * ChangeItem) : Prop :=
  reads_as (fromString e.2) (from_status c)
  ∧ reads_as (toString e.2) (to_status c)
  ∧ strptime (history_created e.1) = Ok (timestamp c).

(** * Properties *)

(** ** Arithmetic of [hours_between]

    Facts of exact rationals.  They serve to evaluate the maps and sums of
    concrete tickets whose hours are whole numbers. *)

Lemma Qc_of_Z_plus (a b : Z) : Qc_of_Z (a + b) = (Qc_of_Z a + Qc_of_Z b)%Qc.
Proof.
  apply Qc_is_canon. unfold Qc_of_Z; simpl.
  rewrite Qred_correct, inject_Z_plus. reflexivity.
Qed.

Lemma total_seconds_plus (a b : Z) :
  total_seconds (a + b) = (total_seconds a + total_seconds b)%Qc.
Proof. unfold total_seconds. rewrite Qc_of_Z_plus. field. discriminate. Qed.

Lemma hours_between_chain (a b c : Z) :
  (hours_between b c + hours_between a b)%Qc = hours_between a c.
Proof.
  unfold hours_between.
  replace (a - c) with ((b - c) + (a - b)) by lia.
  rewrite total_seconds_plus. field. discriminate.
Qed.

Lemma hours_between_diag (a : Z) : hours_between a a = 0%Qc.
Proof.
  unfold hours_between, total_seconds. rewrite Z.sub_diag.
  apply Qc_is_canon. reflexivity.
Qed.

(** ** The sum of a duration map under [accrue] *)

Lemma sum_durations_empty : sum_durations ∅ = 0%Qc.
Proof. apply map_fold_empty. Qed.

Lemma sum_durations_insert_fresh (k : string) (x : Qc) (d : gmap string Qc) :
  d !! k = None → sum_durations (<[k := x]> d) = (x + sum_durations d)%Qc.
Proof.
  intros Hk. unfold sum_durations.
  apply (map_fold_insert_L (λ _ h acc, (h + acc)%Qc)); [|done].
  intros; ring.
Qed.

Lemma sum_durations_accrue (k : string) (x : Qc) (d : gmap string Qc) :
  sum_durations (accrue k x d) = (sum_durations d + x)%Qc.
Proof.
  unfold accrue. destruct (d !! k) as [h|] eqn:Hk; simpl.
  - rewrite <- (insert_delete_eq d).
    rewrite sum_durations_insert_fresh by apply lookup_delete_eq.
    rewrite <- (insert_delete_id d k h Hk) at 2.
    rewrite sum_durations_insert_fresh by apply lookup_delete_eq.
    ring.
  - rewrite sum_durations_insert_fresh by done. ring.
Qed.

(** ** The replay loop *)

Lemma replay_status (l : list StatusChange) s t d :
  (replay l s t d).1.1 = default s (to_status <$> last l).
Proof.
  revert s t d. induction l as [|c l IH]; intros s t d; [done|].
  simpl. rewrite IH, last_cons. by destruct (last l).
Qed.

Lemma replay_time (l : list StatusChange) s t d :
  (replay l s t d).1.2 = default t (timestamp <$> last l).
Proof.
  revert s t d. induction l as [|c l IH]; intros s t d; [done|].
  simpl. rewrite IH, last_cons. by destruct (last l).
Qed.

Lemma replay_sum (l : list StatusChange) s t d :
  sum_durations (replay l s t d).2
  = (sum_durations d + hours_between (default t (timestamp <$> last l)) t)%Qc.
Proof.
  revert s t d. induction l as [|c l IH]; intros s t d.
  - simpl. rewrite hours_between_diag. ring.
  - simpl. rewrite IH, sum_durations_accrue, <- Qcplus_assoc.
    rewrite last_cons. destruct (last l); simpl.
    + by rewrite hours_between_chain.
    + rewrite hours_between_diag. ring.
Qed.

(** The sum of the map the calculation returns in exact rationals, in
    terms of the first and the last change of the list it is given. *)
Lemma calculate_sum (now : Z) (l : list StatusChange) (first final : StatusChange) :
  head l = Some first → last l = Some final →
  sum_durations (_calculate_status_durations now l)
  = if decide (to_status final = "Done")
    then hours_between (timestamp final) (timestamp first)
    else hours_between now (timestamp first).
Proof.
  intros Hh Hl. destruct l as [|c l]; [done|]. simpl in Hh. simplify_eq.
  unfold _calculate_status_durations.
  pose proof (replay_status (first :: l) "New Issues" (timestamp first) ∅) as Hs.
  pose proof (replay_time (first :: l) "New Issues" (timestamp first) ∅) as Ht.
  pose proof (replay_sum (first :: l) "New Issues" (timestamp first) ∅) as Hsum.
  destruct (replay (first :: l) "New Issues" (timestamp first) ∅) as [[s t] d].
  simpl in Hs, Ht, Hsum. rewrite Hl in Hs, Ht, Hsum. simpl in Hs, Ht, Hsum.
  subst s t. rewrite sum_durations_empty in Hsum.
  destruct (decide (to_status final ≠ "Done")) as [Hne|Heq].
  - rewrite decide_False by done.
    rewrite sum_durations_accrue, Hsum, Qcplus_0_l.
    apply hours_between_chain.
  - apply dec_stable in Heq. rewrite decide_True by done.
    rewrite Hsum. ring.
Qed.

Lemma accrue_is_Some (k k' : string) (x : Qc) (d : gmap string Qc) :
  is_Some (d !! k) → is_Some (accrue k' x d !! k).
Proof.
  intros Hk. unfold accrue. destruct (decide (k' = k)) as [->|Hne].
  - rewrite lookup_insert_eq. eauto.
  - by rewrite lookup_insert_ne.
Qed.

Lemma accrue_lookup_eq (k : string) (x : Qc) (d : gmap string Qc) :
  accrue k x d !! k = Some (default 0%Qc (d !! k) + x)%Qc.
Proof. apply lookup_insert_eq. Qed.

Lemma accrue_lookup_ne (k k' : string) (x : Qc) (d : gmap string Qc) :
  k ≠ k' → accrue k x d !! k' = d !! k'.
Proof. intros. by apply lookup_insert_ne. Qed.

Lemma replay_is_Some (l : list StatusChange) s t d (k : string) :
  is_Some (d !! k) → is_Some ((replay l s t d).2 !! k).
Proof.
  revert s t d. induction l as [|c l IH]; intros s t d Hk; [done|].
  simpl. apply IH. by apply accrue_is_Some.
Qed.

Lemma calculate_has_initial_status (now : Z) (first : StatusChange)
    (rest : list StatusChange) :
  is_Some (_calculate_status_durations now (first :: rest) !! "New Issues").
Proof.
  unfold _calculate_status_durations.
  pose proof (replay_is_Some rest (to_status first) (timestamp first)
    (accrue "New Issues" (hours_between (timestamp first) (timestamp first)) ∅)
    "New Issues") as H.
  simpl.
  destruct (replay rest _ _ _) as [[s t] d]. simpl in H.
  assert (is_Some (d !! "New Issues")) as Hd.
  { apply H. rewrite accrue_lookup_eq. eauto. }
  destruct (decide (s ≠ "Done")); [by apply accrue_is_Some | done].
Qed.

(** ** [sorted]: ascending, a permutation, stable, and determined by that *)

Section SortedFacts.
Context {A : Type} (kf : A → Z).

Lemma insert_by_perm (x : A) (l : list A) : insert_by kf x l ≡ₚ x :: l.
Proof.
  induction l as [|y l IH]; simpl; [done|].
  case_decide; [done|]. rewrite IH. apply Permutation_swap.
Qed.

Lemma sorted_perm (l : list A) : sorted kf l ≡ₚ l.
Proof.
  induction l as [|x l IH]; simpl; [done|].
  by rewrite insert_by_perm, IH.
Qed.

Lemma insert_by_ascending (x : A) (l : list A) :
  ascending kf l → ascending kf (insert_by kf x l).
Proof.
  unfold ascending. induction 1 as [|y l Hl IH Hy]; simpl.
  - repeat constructor.
  - case_decide as Hxy.
    + constructor; [by constructor|].
      constructor; [done|].
      eapply Forall_impl; [exact Hy|]. intros z Hz; simpl in *. lia.
    + constructor; [done|].
      rewrite insert_by_perm. constructor; [lia|done].
Qed.

Lemma sorted_ascending (l : list A) : ascending kf (sorted kf l).
Proof.
  induction l as [|x l IH]; simpl; [constructor|].
  by apply insert_by_ascending.
Qed.

Lemma insert_by_filter (k : Z) (x : A) (l : list A) :
  filter (λ a, kf a = k) (insert_by kf x l)
  = filter (λ a, kf a = k) (x :: l).
Proof.
  induction l as [|y l IH]; simpl; [done|].
  case_decide as Hxy; [done|].
  rewrite !filter_cons, IH, filter_cons.
  repeat case_decide; try done; lia.
Qed.

(** Stability: the changes that share a key keep their relative order. *)
Lemma sorted_stable (k : Z) (l : list A) :
  filter (λ a, kf a = k) (sorted kf l) = filter (λ a, kf a = k) l.
Proof.
  induction l as [|x l IH]; simpl; [done|].
  by rewrite insert_by_filter, !filter_cons, IH.
Qed.

Lemma sorted_of_ascending (l : list A) : ascending kf l → sorted kf l = l.
Proof.
  unfold ascending. induction 1 as [|x l Hl IH Hx]; simpl; [done|].
  rewrite IH. destruct Hx as [|y l Hxy _]; simpl; [done|].
  by rewrite decide_True.
Qed.

Lemma sorted_idempotent (l : list A) : sorted kf (sorted kf l) = sorted kf l.
Proof. apply sorted_of_ascending, sorted_ascending. Qed.

(** Two ascending lists with the same elements per key, in the same
    order, are the same list. *)
Lemma ascending_unique (l1 l2 : list A) :
  ascending kf l1 → ascending kf l2 →
  (∀ k, filter (λ a, kf a = k) l1 = filter (λ a, kf a = k) l2) →
  l1 = l2.
Proof.
  unfold ascending. intros H1. revert l2.
  induction H1 as [|a l1 Hl1 IH Ha]; intros l2 H2 Hf.
  - destruct l2 as [|b l2]; [done|].
    specialize (Hf (kf b)). rewrite filter_cons, decide_True in Hf by done.
    done.
  - destruct H2 as [|b l2 Hl2 Hb].
    { specialize (Hf (kf a)). rewrite filter_cons, decide_True in Hf by done.
      done. }
    assert (kf a = kf b) as Hab.
    { destruct (Z.lt_trichotomy (kf a) (kf b)) as [Hlt|[Heq|Hgt]]; [|done|].
      - pose proof (Hf (kf a)) as Hfa.
        rewrite filter_cons, decide_True in Hfa by done.
        rewrite filter_cons, decide_False in Hfa by lia.
        assert (a ∈ filter (λ x, kf x = kf a) l2) as Hin
          by (rewrite <- Hfa; left).
        apply list_elem_of_filter in Hin as [_ Hin].
        rewrite Forall_forall in Hb. specialize (Hb a Hin). lia.
      - pose proof (Hf (kf b)) as Hfb.
        rewrite (filter_cons _ b), decide_True in Hfb by done.
        rewrite filter_cons, decide_False in Hfb by lia.
        assert (b ∈ filter (λ x, kf x = kf b) l1) as Hin
          by (rewrite Hfb; left).
        apply list_elem_of_filter in Hin as [_ Hin].
        rewrite Forall_forall in Ha. specialize (Ha b Hin). lia. }
    pose proof (Hf (kf a)) as Hfa.
    rewrite !filter_cons, decide_True in Hfa by done.
    rewrite decide_True in Hfa by done.
    injection Hfa as -> _. f_equal. apply IH; [done|].
    intros k. specialize (Hf k). rewrite !filter_cons in Hf.
    case_decide; [by injection Hf|done].
Qed.

(** Hence any rearrangement of the input that keeps the relative order of
    equal keys sorts to the same list. *)
Lemma sorted_ext (l1 l2 : list A) :
  (∀ k, filter (λ a, kf a = k) l1 = filter (λ a, kf a = k) l2) →
  sorted kf l1 = sorted kf l2.
Proof.
  intros Hf. apply ascending_unique; [apply sorted_ascending..|].
  intros k. by rewrite !sorted_stable.
Qed.

Lemma ascending_head_min (l : list A) (x y : A) :
  ascending kf l → head l = Some x → y ∈ l → kf x ≤ kf y.
Proof.
  intros Hl Hx Hy. destruct Hl as [|a l Hl Ha]; [done|].
  simpl in Hx. simplify_eq. apply elem_of_cons in Hy as [->|Hy]; [lia|].
  rewrite Forall_forall in Ha. by apply Ha.
Qed.

Lemma ascending_last_max (l : list A) (x y : A) :
  ascending kf l → last l = Some x → y ∈ l → kf y ≤ kf x.
Proof.
  intros Hl. revert x y. induction Hl as [|a l Hl IH Ha]; intros x y Hx Hy; [done|].
  rewrite last_cons in Hx. destruct (last l) as [z|] eqn:Hz.
  - simplify_eq. apply elem_of_cons in Hy as [->|Hy]; [|by apply IH].
    rewrite Forall_forall in Ha. apply Ha. by apply last_Some_elem_of.
  - simplify_eq. apply last_None in Hz as ->.
    apply elem_of_cons in Hy as [->|Hy]; [lia|]. by apply elem_of_nil in Hy.
Qed.
End SortedFacts.

(** ** The accumulators of the aggregation *)

Lemma sum_counts_insert_fresh (c : string) (st : CategoryStats)
    (cs : gmap string CategoryStats) :
  cs !! c = None → sum_counts (<[c := st]> cs) = (count st + sum_counts cs)%nat.
Proof.
  intros Hc. unfold sum_counts.
  apply (map_fold_insert_L (λ _ st acc, (count st + acc)%nat)); [|done].
  intros; lia.
Qed.

Lemma sum_counts_insert (c : string) (st : CategoryStats)
    (cs : gmap string CategoryStats) :
  (sum_counts (<[c := st]> cs) + count (getitem_stats cs c)
   = sum_counts cs + count st)%nat.
Proof.
  unfold getitem_stats. destruct (cs !! c) as [old|] eqn:Hc; simpl.
  - rewrite <- (insert_delete_eq cs).
    rewrite sum_counts_insert_fresh by apply lookup_delete_eq.
    rewrite <- (insert_delete_id cs c old Hc) at 2.
    rewrite sum_counts_insert_fresh by apply lookup_delete_eq. lia.
  - rewrite sum_counts_insert_fresh by done. lia.
Qed.

Lemma getitem_stats_insert_eq (c : string) (st : CategoryStats)
    (cs : gmap string CategoryStats) :
  getitem_stats (<[c := st]> cs) c = st.
Proof. unfold getitem_stats. by rewrite lookup_insert_eq. Qed.

Lemma getitem_stats_insert_ne (c c' : string) (st : CategoryStats)
    (cs : gmap string CategoryStats) :
  c ≠ c' → getitem_stats (<[c := st]> cs) c' = getitem_stats cs c'.
Proof. intros. unfold getitem_stats. by rewrite lookup_insert_ne. Qed.

(** The inner loop leaves the counts and the issue lists of all buckets as
    they are. *)
Lemma fold_add_status_stats (c : string) (es : list (string * Qc)) ag cs tot :
  let cs' := (foldl (add_status c) (ag, cs, tot) es).1.2 in
  sum_counts cs' = sum_counts cs
  ∧ ∀ c', count (getitem_stats cs' c') = count (getitem_stats cs c')
          ∧ issues (getitem_stats cs' c') = issues (getitem_stats cs c').
Proof.
  revert ag cs tot. induction es as [|[s h] es IH]; intros ag cs tot; [done|].
  simpl. specialize (IH
    (<[s := mkAgg (agg_total_hours (getitem_agg ag s) + h)%Qc
                  (S (agg_count (getitem_agg ag s)))]> ag)
    (<[c := mkStats (total_hours (getitem_stats cs c)) (count (getitem_stats cs c))
                    (issues (getitem_stats cs c))
                    (accrue s h (status_totals (getitem_stats cs c)))]> cs)
    (tot + h)%Qc).
  simpl in IH. destruct IH as [IHsum IHc]. split.
  - rewrite IHsum.
    pose proof (sum_counts_insert c
      (mkStats (total_hours (getitem_stats cs c)) (count (getitem_stats cs c))
               (issues (getitem_stats cs c))
               (accrue s h (status_totals (getitem_stats cs c)))) cs) as Hins.
    simpl in Hins. lia.
  - intros c'. destruct (IHc c') as [-> ->].
    destruct (decide (c = c')) as [->|Hne].
    + by rewrite getitem_stats_insert_eq.
    + by rewrite getitem_stats_insert_ne.
Qed.

(** The inner loop bumps the entry of every status of the ticket, once. *)
Lemma fold_add_status_agg (c : string) (es : list (string * Qc)) ag cs tot
    (s : string) :
  NoDup es.*1 →
  (foldl (add_status c) (ag, cs, tot) es).1.1 !! s
  = match (list_to_map es : gmap string Qc) !! s with
    | Some h => Some (mkAgg (agg_total_hours (getitem_agg ag s) + h)%Qc
                            (S (agg_count (getitem_agg ag s))))
    | None => ag !! s
    end.
Proof.
  revert ag cs tot. induction es as [|[s0 h0] es IH]; intros ag cs tot Hnd; [done|].
  simpl in Hnd. apply NoDup_cons in Hnd as [Hs0 Hnd].
  simpl. rewrite IH by done.
  assert ((list_to_map es : gmap string Qc) !! s0 = None) as Hnone
    by by apply not_elem_of_list_to_map_1.
  destruct (decide (s0 = s)) as [->|Hne].
  - rewrite Hnone, !lookup_insert_eq. done.
  - unfold getitem_agg. by rewrite !(lookup_insert_ne _ s0 s) by done.
Qed.

(** One ticket: its bucket gets the key and one more count; every status of
    its duration map gets its hours and one more count. *)
Lemma add_issue_stats (acc : AggState) (k : string) (d : IssueData) :
  let cs' := category_stats (add_issue acc (k, d)) in
  sum_counts cs' = S (sum_counts (category_stats acc))
  ∧ ∀ c,
      count (getitem_stats cs' c)
      = (count (getitem_stats (category_stats acc) c)
         + if decide (category_of d = c) then 1 else 0)%nat
      ∧ issues (getitem_stats cs' c)
        = issues (getitem_stats (category_stats acc) c)
          ++ if decide (category_of d = c) then [k] else [].
Proof.
  unfold add_issue.
  pose proof (fold_add_status_stats (category_of d) (map_to_list (durations d))
    (aggregated acc) (category_stats acc) 0%Qc) as H.
  destruct (foldl _ _ _) as [[ag' cs'] tot']. simpl in H. destruct H as [Hsum Hc].
  simpl. split.
  - pose proof (sum_counts_insert (category_of d)
      (mkStats (total_hours (getitem_stats cs' (category_of d)) + tot')%Qc
               (S (count (getitem_stats cs' (category_of d))))
               (issues (getitem_stats cs' (category_of d)) ++ [k])
               (status_totals (getitem_stats cs' (category_of d)))) cs') as Hins.
    simpl in Hins. lia.
  - intros c. destruct (Hc c) as [Hcount Hissues].
    destruct (decide (category_of d = c)) as [<-|Hne].
    + rewrite getitem_stats_insert_eq. simpl. rewrite Hcount, Hissues.
      split; [lia|done].
    + rewrite getitem_stats_insert_ne by done. rewrite Hcount, Hissues.
      split; [lia|by rewrite app_nil_r].
Qed.

Lemma add_issue_agg (acc : AggState) (k : string) (d : IssueData) (s : string) :
  aggregated (add_issue acc (k, d)) !! s
  = match durations d !! s with
    | Some h => Some (mkAgg (agg_total_hours (getitem_agg (aggregated acc) s) + h)%Qc
                            (S (agg_count (getitem_agg (aggregated acc) s))))
    | None => aggregated acc !! s
    end.
Proof.
  unfold add_issue.
  pose proof (fold_add_status_agg (category_of d) (map_to_list (durations d))
    (aggregated acc) (category_stats acc) 0%Qc s
    (NoDup_fst_map_to_list _)) as H.
  destruct (foldl _ _ _) as [[ag' cs'] tot']. simpl in H. simpl.
  by rewrite H, list_to_map_to_list.
Qed.

(** ** The aggregation of a whole [results] dictionary *)

Lemma keys_in_category_cons (c k : string) (d : IssueData)
    (results : list (string * IssueData)) :
  keys_in_category c ((k, d) :: results)
  = (if decide (category_of d = c) then [k] else []) ++ keys_in_category c results.
Proof.
  unfold keys_in_category. rewrite filter_cons. simpl. by case_decide.
Qed.

Lemma fold_add_issue_stats (results : list (string * IssueData)) (acc : AggState) :
  let cs' := category_stats (foldl add_issue acc results) in
  sum_counts cs' = (sum_counts (category_stats acc) + length results)%nat
  ∧ ∀ c,
      count (getitem_stats cs' c)
      = (count (getitem_stats (category_stats acc) c)
         + length (keys_in_category c results))%nat
      ∧ issues (getitem_stats cs' c)
        = issues (getitem_stats (category_stats acc) c)
          ++ keys_in_category c results.
Proof.
  revert acc. induction results as [|[k d] results IH]; intros acc.
  - simpl. split; [lia|]. intros c. split; [lia|by rewrite app_nil_r].
  - destruct (IH (add_issue acc (k, d))) as [IHsum IHc].
    destruct (add_issue_stats acc k d) as [Hsum Hc].
    change (foldl add_issue acc ((k, d) :: results))
      with (foldl add_issue (add_issue acc (k, d)) results).
    cbv zeta. split.
    + rewrite IHsum, Hsum. cbn [length]. lia.
    + intros c. destruct (IHc c) as [-> ->], (Hc c) as [-> ->].
      rewrite keys_in_category_cons, length_app, <- app_assoc.
      split; [|done]. case_decide; simpl; lia.
Qed.

Lemma tickets_with_status_cons (s k : string) (d : IssueData)
    (results : list (string * IssueData)) :
  tickets_with_status s ((k, d) :: results)
  = (if decide (is_Some (durations d !! s)) then [(k, d)] else [])
    ++ tickets_with_status s results.
Proof.
  unfold tickets_with_status. rewrite filter_cons. simpl. by case_decide.
Qed.

Lemma status_total_cons (s k : string) (d : IssueData)
    (results : list (string * IssueData)) :
  status_total s ((k, d) :: results)
  = (default 0 (durations d !! s) + status_total s results)%Qc.
Proof. done. Qed.

Lemma fold_add_issue_agg (results : list (string * IssueData)) (acc : AggState)
    (s : string) :
  aggregated (foldl add_issue acc results) !! s
  = if decide (tickets_with_status s results = [])
    then aggregated acc !! s
    else Some (mkAgg (agg_total_hours (getitem_agg (aggregated acc) s)
                      + status_total s results)%Qc
                     (agg_count (getitem_agg (aggregated acc) s)
                      + length (tickets_with_status s results))).
Proof.
  revert acc. induction results as [|[k d] results IH]; intros acc; [done|].
  change (foldl add_issue acc ((k, d) :: results))
    with (foldl add_issue (add_issue acc (k, d)) results).
  rewrite IH, tickets_with_status_cons, status_total_cons.
  unfold getitem_agg. rewrite add_issue_agg.
  destruct (durations d !! s) as [h|] eqn:Hd; simpl.
  - fold (getitem_agg (aggregated acc) s). case_decide as Hrest.
    + rewrite Hrest. simpl. f_equal. f_equal; [|lia].
      assert (status_total s results = 0%Qc) as ->; [|ring].
      clear -Hrest. induction results as [|[k' d'] results IH]; [done|].
      rewrite tickets_with_status_cons in Hrest.
      rewrite status_total_cons. case_decide as Hs; [done|].
      rewrite IH by done.
      destruct (durations d' !! s); [destruct Hs; eauto|simpl; ring].
    + f_equal. f_equal; [ring|lia].
  - case_decide; [done|]. f_equal. f_equal. ring.
Qed.

(** [aggregated] after the loop: a status has an entry exactly when some
    ticket's duration map has it, holding the hours and the number of those
    tickets. *)
Lemma aggregate_agg (results : list (string * IssueData)) (s : string) :
  aggregated (aggregate results) !! s
  = if decide (tickets_with_status s results = []) then None
    else Some (mkAgg (status_total s results)
                     (length (tickets_with_status s results))).
Proof.
  unfold aggregate. rewrite fold_add_issue_agg. simpl.
  case_decide; [done|]. unfold getitem_agg. rewrite lookup_empty. simpl.
  f_equal. f_equal. ring.
Qed.

(** [category_stats] after the loop: the bucket of a category lists the keys
    of its tickets, in order, and counts them. *)
Lemma aggregate_stats (results : list (string * IssueData)) :
  let cs := category_stats (aggregate results) in
  sum_counts cs = length results
  ∧ ∀ c, count (getitem_stats cs c) = length (keys_in_category c results)
         ∧ issues (getitem_stats cs c) = keys_in_category c results.
Proof.
  destruct (fold_add_issue_stats results (mkState ∅ ∅ 0%Qc)) as [Hsum Hc].
  simpl in Hsum, Hc. split.
  - unfold aggregate. rewrite Hsum. unfold sum_counts. by rewrite map_fold_empty.
  - intros c. destruct (Hc c) as [H1 H2]. unfold aggregate.
    rewrite H1, H2. unfold getitem_stats. rewrite lookup_empty. done.
Qed.

Lemma getitem_stats_Some (cs : gmap string CategoryStats) (c : string)
    (st : CategoryStats) :
  cs !! c = Some st → getitem_stats cs c = st.
Proof. intros H. unfold getitem_stats. by rewrite H. Qed.

Lemma getitem_stats_elem (cs : gmap string CategoryStats) (c k : string) :
  k ∈ issues (getitem_stats cs c) →
  ∃ st, cs !! c = Some st ∧ k ∈ issues st.
Proof.
  unfold getitem_stats. destruct (cs !! c) as [st|]; simpl; [eauto|].
  intros H. by apply elem_of_nil in H.
Qed.

Lemma elem_of_keys_in_category (c k : string) (results : list (string * IssueData)) :
  k ∈ keys_in_category c results ↔ ∃ d, (k, d) ∈ results ∧ category_of d = c.
Proof.
  unfold keys_in_category. rewrite list_elem_of_fmap. split.
  - intros [[k' d] [-> Hin]]. apply list_elem_of_filter in Hin as [Hc Hin].
    eauto.
  - intros [d [Hin Hc]]. exists (k, d). split; [done|].
    by apply list_elem_of_filter.
Qed.

Lemma NoDup_keys_in_category (c : string) (results : list (string * IssueData)) :
  NoDup results.*1 → NoDup (keys_in_category c results).
Proof.
  intros Hnd. unfold keys_in_category.
  induction results as [|[k d] results IH]; [constructor|].
  simpl in Hnd. apply NoDup_cons in Hnd as [Hk Hnd].
  rewrite filter_cons. simpl. case_decide; [|by apply IH].
  simpl. apply NoDup_cons. split; [|by apply IH].
  intros Hin. apply Hk. apply list_elem_of_fmap in Hin as [[k' d'] [-> Hin]].
  apply list_elem_of_filter in Hin as [_ Hin].
  apply list_elem_of_fmap. by exists (k', d').
Qed.

Lemma NoDup_fst_functional {V : Type} (l : list (string * V)) (k : string) (v v' : V) :
  NoDup l.*1 → (k, v) ∈ l → (k, v') ∈ l → v = v'.
Proof.
  intros Hnd H1 H2. induction l as [|[k0 v0] l IH]; [by apply elem_of_nil in H1|].
  simpl in Hnd. apply NoDup_cons in Hnd as [Hk Hnd].
  apply elem_of_cons in H1 as [H1|H1], H2 as [H2|H2]; simplify_eq; [done|..].
  - destruct Hk. apply list_elem_of_fmap. by exists (k0, v').
  - destruct Hk. apply list_elem_of_fmap. by exists (k0, v).
  - by apply IH.
Qed.

(** ** The fetch loop *)

Section FetcherFacts.
Variable jira : Jira.
Variables (jql_query custom_field_id : string) (max_results_per_page : Z).

(** Pages that arrive and do not yet reach the total are accumulated; the
    first page that fails ends the loop with what has been accumulated. *)
Lemma fetch_loop_page_failure (total_issues : Z) (pages : list (list Issue))
    (all_issues : list Issue) (start_at : Z) (fuel : nat) (msg : string) :
  (∀ i page, pages !! i = Some page →
     fetch_page jira jql_query (start_at + Z.of_nat i * max_results_per_page)
                max_results_per_page custom_field_id = Ok page) →
  (∀ i, (i < length pages)%nat →
     Z.of_nat (length (all_issues ++ concat (take (S i) pages))) < total_issues) →
  fetch_page jira jql_query
             (start_at + Z.of_nat (length pages) * max_results_per_page)
             max_results_per_page custom_field_id = Raise msg →
  (length pages < fuel)%nat →
  fetch_loop jira fuel jql_query max_results_per_page custom_field_id
             total_issues all_issues start_at
  = Some (all_issues ++ concat pages).
Proof.
  revert all_issues start_at fuel.
  induction pages as [|page pages IH]; intros all_issues start_at fuel Hok Hlt Hfail Hfuel.
  - destruct fuel as [|fuel]; [simpl in Hfuel; lia|].
    simpl in Hfail. rewrite Z.add_0_r in Hfail.
    simpl. rewrite Hfail. by rewrite app_nil_r.
  - destruct fuel as [|fuel]; [lia|].
    pose proof (Hok 0%nat page eq_refl) as H0.
    simpl in H0. rewrite Z.add_0_r in H0.
    simpl. rewrite H0.
    pose proof (Hlt 0%nat ltac:(simpl; lia)) as Hlt0.
    simpl in Hlt0. rewrite app_nil_r in Hlt0.
    rewrite decide_False by lia.
    rewrite (IH (all_issues ++ page) (start_at + max_results_per_page) fuel).
    + by rewrite <- app_assoc.
    + intros i pg Hi. rewrite <- (Hok (S i) pg Hi). f_equal. lia.
    + intros i Hi. specialize (Hlt (S i) ltac:(simpl; lia)).
      simpl in Hlt. by rewrite <- app_assoc.
    + rewrite <- Hfail. f_equal. simpl length. lia.
    + simpl in Hfuel. lia.
Qed.

Lemma get_issues_by_jql_returns (fuel : nat) (r : Exc (list Issue)) :
  get_issues_by_jql jira fuel jql_query max_results_per_page custom_field_id = Some r →
  ∃ all_issues, r = Ok all_issues.
Proof.
  unfold get_issues_by_jql.
  destruct (enhanced_search_total jira jql_query) as [total|msg].
  - destruct (fetch_loop _ _ _ _ _ _ _ _) as [l|]; simpl; [|done].
    intros [= <-]. eauto.
  - intros [= <-]. eauto.
Qed.
End FetcherFacts.

(** ** The results dictionary *)

Lemma dict_get_set_eq {V : Type} (k : string) (v : V) (d : list (string * V)) :
  dict_get k (dict_set k v d) = Some v.
Proof.
  induction d as [|[k' v'] d IH]; simpl.
  - by rewrite decide_True.
  - case_decide; simpl.
    + by rewrite decide_True.
    + by rewrite decide_False.
Qed.

Lemma dict_get_set_ne {V : Type} (k k' : string) (v : V) (d : list (string * V)) :
  k ≠ k' → dict_get k' (dict_set k v d) = dict_get k' d.
Proof.
  intros Hne. induction d as [|[k0 v0] d IH]; simpl.
  - by rewrite decide_False.
  - case_decide as Hk; simpl.
    + subst k0. by rewrite !decide_False.
    + case_decide; [done|]. apply IH.
Qed.

Lemma dict_set_keys {V : Type} (k k' : string) (v : V) (d : list (string * V)) :
  k' ∈ (dict_set k v d).*1 ↔ k' = k ∨ k' ∈ d.*1.
Proof.
  induction d as [|[k0 v0] d IH]; simpl.
  - rewrite list_elem_of_singleton. split; [auto|]. intros [?|H]; [done|].
    by apply elem_of_nil in H.
  - case_decide as Hk; simpl; rewrite !elem_of_cons.
    + subst k0. tauto.
    + rewrite IH. tauto.
Qed.

Lemma dict_set_NoDup {V : Type} (k : string) (v : V) (d : list (string * V)) :
  NoDup d.*1 → NoDup (dict_set k v d).*1.
Proof.
  induction d as [|[k0 v0] d IH]; simpl; intros Hnd.
  - apply NoDup_singleton.
  - apply NoDup_cons in Hnd as [Hk0 Hnd]. case_decide as Hk; simpl.
    + subst k0. by apply NoDup_cons.
    + apply NoDup_cons. split; [|by apply IH].
      rewrite dict_set_keys. intros [?|?]; done.
Qed.

Lemma dict_get_elem {V : Type} (k : string) (v : V) (d : list (string * V)) :
  dict_get k d = Some v → (k, v) ∈ d.
Proof.
  induction d as [|[k0 v0] d IH]; simpl; [done|].
  case_decide as Hk.
  - intros [= ->]. subst k0. left.
  - intros H. right. by apply IH.
Qed.

(** ** The batch loop *)

Section BatchFacts.
Variable strptime : string → Exc Z.
Variable clock : nat → Z.
Variables custom_field_id field_name : string.

Local Abbreviation process := (process_issue strptime custom_field_id field_name).
Local Abbreviation loop := (analyze_loop strptime clock custom_field_id field_name).

Lemma status_items_raise (h : History) (items : list ChangeItem)
    (item : ChangeItem) (msg : string) :
  item ∈ items → item_field item = "status" →
  strptime (history_created h) = Raise msg →
  status_items strptime h items = Raise msg.
Proof.
  intros Hin Hf Hp. induction items as [|x items IH]; [by apply elem_of_nil in Hin|].
  simpl. case_decide as Hx.
  - by rewrite Hp.
  - apply elem_of_cons in Hin as [->|Hin]; [done|]. by apply IH.
Qed.

Lemma collect_status_changes_raise (hs : list History) (h : History) (msg : string) :
  h ∈ hs → status_items strptime h (history_items h) = Raise msg →
  ∃ msg', collect_status_changes strptime hs = Raise msg'.
Proof.
  intros Hin Hh. induction hs as [|x hs IH]; [by apply elem_of_nil in Hin|].
  simpl. apply elem_of_cons in Hin as [<-|Hin].
  - rewrite Hh. simpl. eauto.
  - destruct (status_items strptime x (history_items x)); simpl; [|eauto].
    destruct (IH Hin) as [msg' ->]. simpl. eauto.
Qed.

(** A status change whose timestamp does not parse makes the processing of
    its ticket raise. *)
Lemma process_issue_malformed (now : Z) (issue : Issue) (h : History)
    (item : ChangeItem) (msg : string) :
  h ∈ histories issue → item ∈ history_items h → item_field item = "status" →
  strptime (history_created h) = Raise msg →
  ∃ msg', process now issue = Raise msg'.
Proof.
  intros Hh Hitem Hf Hp.
  pose proof (status_items_raise h _ item msg Hitem Hf Hp) as Hraise.
  destruct (collect_status_changes_raise _ h msg Hh Hraise) as [msg' Hc].
  exists msg'. unfold process_issue, _get_status_changes. by rewrite Hc.
Qed.

Lemma analyze_loop_other (k : string) (issues : list Issue) (i : nat)
    (results : list (string * IssueData)) :
  (∀ issue, issue ∈ issues → key issue ≠ k) →
  dict_get k (loop i issues results) = dict_get k results.
Proof.
  revert i results. induction issues as [|x issues IH]; intros i results Hk; [done|].
  simpl. assert (key x ≠ k) as Hx by (apply Hk; left).
  assert (∀ issue, issue ∈ issues → key issue ≠ k) as Hrest
    by (intros; apply Hk; by right).
  destruct (process _ x); rewrite IH by done; [|done].
  by apply dict_get_set_ne.
Qed.

(** When the keys of the fetched issues are distinct, the entry of a key is
    what processing that issue gave: its data, or nothing when it raised. *)
Lemma analyze_loop_lookup (issues : list Issue) (i j : nat) (issue : Issue)
    (results : list (string * IssueData)) :
  NoDup (key <$> issues) → issues !! j = Some issue →
  dict_get (key issue) (loop i issues results)
  = match process (clock (i + j)) issue with
    | Ok data => Some data
    | Raise _ => dict_get (key issue) results
    end.
Proof.
  revert i j results.
  induction issues as [|x issues IH]; intros i j results Hnd Hj; [done|].
  simpl in Hnd. apply NoDup_cons in Hnd as [Hx Hnd].
  destruct j as [|j]; simpl in Hj.
  - simplify_eq. rewrite Nat.add_0_r. simpl.
    assert (∀ y, y ∈ issues → key y ≠ key issue) as Hother.
    { intros y Hy Heq. apply Hx. rewrite <- Heq. apply list_elem_of_fmap. eauto. }
    destruct (process _ issue); rewrite analyze_loop_other by done; [|done].
    apply dict_get_set_eq.
  - assert (key x ≠ key issue) as Hne.
    { intros Heq. apply Hx. rewrite Heq. apply list_elem_of_fmap.
      exists issue. split; [done|]. by eapply list_elem_of_lookup_2. }
    simpl. replace (i + S j)%nat with (S i + j)%nat by lia.
    destruct (process (clock i) x); rewrite (IH (S i) j) by done; [|done].
    by rewrite dict_get_set_ne.
Qed.

(** Whatever the keys, a key has an entry exactly when it had one before or
    the processing of some issue with that key succeeded. *)
Lemma analyze_loop_dom (k : string) (issues : list Issue) (i : nat)
    (results : list (string * IssueData)) :
  is_Some (dict_get k (loop i issues results))
  ↔ is_Some (dict_get k results)
    ∨ ∃ j issue data, issues !! j = Some issue ∧ key issue = k
                      ∧ process (clock (i + j)) issue = Ok data.
Proof.
  revert i results. induction issues as [|x issues IH]; intros i results.
  - simpl. split; [auto|]. intros [?|(j & ? & ? & Hj & _)]; done.
  - simpl. destruct (process (clock i) x) as [data|msg] eqn:Hp; rewrite IH; split.
    + intros [Hs|(j & issue & d & Hj & Hk & Hd)].
      * destruct (decide (key x = k)) as [Hx|Hx].
        -- right. exists 0%nat, x, data. by rewrite Nat.add_0_r.
        -- left. by rewrite dict_get_set_ne in Hs.
      * right. exists (S j), issue, d.
        by replace (i + S j)%nat with (S i + j)%nat by lia.
    + intros [Hs|(j & issue & d & Hj & Hk & Hd)].
      * left. destruct (decide (key x = k)) as [<-|Hx].
        -- rewrite dict_get_set_eq. eauto.
        -- by rewrite dict_get_set_ne.
      * destruct j as [|j]; simpl in Hj.
        -- simplify_eq. left. rewrite dict_get_set_eq. eauto.
        -- right. exists j, issue, d.
           by replace (S i + j)%nat with (i + S j)%nat by lia.
    + intros [Hs|(j & issue & d & Hj & Hk & Hd)]; [by left|].
      right. exists (S j), issue, d.
      by replace (i + S j)%nat with (S i + j)%nat by lia.
    + intros [Hs|(j & issue & d & Hj & Hk & Hd)]; [by left|].
      destruct j as [|j]; simpl in Hj.
      * simplify_eq. rewrite Nat.add_0_r in Hd. congruence.
      * right. exists j, issue, d.
        by replace (S i + j)%nat with (i + S j)%nat by lia.
Qed.

(** The loop keeps the keys of [results] distinct. *)
Lemma analyze_loop_NoDup (issues : list Issue) (i : nat)
    (results : list (string * IssueData)) :
  NoDup results.*1 → NoDup (loop i issues results).*1.
Proof.
  revert i results. induction issues as [|x issues IH]; intros i results Hnd; [done|].
  simpl. destruct (process _ x); apply IH; [|done]. by apply dict_set_NoDup.
Qed.
End BatchFacts.

(** * The duration calculation *)

Lemma hours_between_offset (t a b : Z) :
  hours_between (t + a) (t + b) = hours_between a b.
Proof. unfold hours_between. f_equal. f_equal. lia. Qed.

Lemma hours_between_hours (n : Z) : hours_between (n * hour) 0 = Qc_of_Z n.
Proof.
  unfold hours_between, total_seconds, hour. rewrite Z.sub_0_r.
  replace (n * 3600000000) with (n * 1000000 * 3600) by lia.
  assert (∀ a b, Qc_of_Z (a * b) = (Qc_of_Z a * Qc_of_Z b)%Qc) as Hmul.
  { intros a b. apply Qc_is_canon. unfold Qc_of_Z; simpl.
    rewrite Qred_correct, inject_Z_mult. reflexivity. }
  rewrite !Hmul. field. split; discriminate.
Qed.

Lemma hours_between_from (t n m : Z) :
  hours_between (t + n * hour) (t + m * hour) = Qc_of_Z (n - m).
Proof.
  rewrite hours_between_offset, <- hours_between_hours.
  unfold hours_between. f_equal. f_equal. lia.
Qed.

Lemma hours_between_after (t n : Z) : hours_between (t + n * hour) t = Qc_of_Z n.
Proof.
  rewrite <- hours_between_hours. unfold hours_between. f_equal. f_equal. lia.
Qed.

(** C3: a ticket that enters New Issues at [t], In Progress at [t + 2h] and
    Done at [t + 26h] gets exactly {New Issues: 2, In Progress: 24}, 26 hours
    in total, whenever it is analyzed: nothing is accrued after Done. *)
Theorem scenario_done_ticket (t now : Z) :
  _calculate_status_durations now (scenario_changes t)
  = {[ "New Issues" := Qc_of_Z 2; "In Progress" := Qc_of_Z 24 ]}
  ∧ sum_durations (_calculate_status_durations now (scenario_changes t))
    = Qc_of_Z 26.
Proof.
  split.
  - unfold _calculate_status_durations, scenario_changes. simpl.
    rewrite hours_between_diag.
    rewrite hours_between_after, (hours_between_from t 26 2). simpl.
    unfold accrue. rewrite lookup_empty. simpl.
    rewrite lookup_insert_eq. simpl. rewrite insert_insert_eq.
    rewrite lookup_insert_ne by done. rewrite lookup_empty. simpl.
    rewrite !Qcplus_0_l.
    apply map_eq. intros k.
    rewrite !lookup_insert, lookup_singleton, lookup_empty.
    repeat case_decide; simplify_eq; done.
  - rewrite (calculate_sum now (scenario_changes t)
               (mkChange "None" "New Issues" t)
               (mkChange "In Progress" "Done" (t + 26 * hour))) by done.
    simpl. apply hours_between_after.
Qed.

(** * From a ticket to its duration map *)

Section ReplayerFacts.
Variable strptime : string → Exc Z.

Lemma status_items_none (h : History) (items : list ChangeItem) :
  (∀ item, item ∈ items → item_field item ≠ "status") →
  status_items strptime h items = Ok [].
Proof.
  induction items as [|x items IH]; intros Hno; [done|].
  simpl. rewrite decide_False by (apply Hno; left).
  apply IH. intros item Hin. apply Hno. by right.
Qed.

Lemma collect_status_changes_none (hs : list History) :
  (∀ h item, h ∈ hs → item ∈ history_items h → item_field item ≠ "status") →
  collect_status_changes strptime hs = Ok [].
Proof.
  induction hs as [|h hs IH]; intros Hno; [done|].
  simpl. rewrite status_items_none by (intros item; apply Hno; left).
  simpl. rewrite IH; [done|]. intros h' item Hh'. apply Hno. by right.
Qed.

Lemma get_status_changes_inv (issue : Issue) (status_changes : list StatusChange) :
  _get_status_changes strptime issue = Ok status_changes →
  ∃ raw, collect_status_changes strptime (histories issue) = Ok raw
         ∧ status_changes = sorted timestamp raw.
Proof.
  unfold _get_status_changes.
  destruct (collect_status_changes strptime (histories issue)) as [raw|msg];
    simpl; [|done].
  intros [= <-]. eauto.
Qed.

Lemma get_status_changes_ascending (issue : Issue)
    (status_changes : list StatusChange) :
  _get_status_changes strptime issue = Ok status_changes →
  ascending timestamp status_changes.
Proof.
  intros H. apply get_status_changes_inv in H as (raw & _ & ->).
  apply sorted_ascending.
Qed.
End ReplayerFacts.

Lemma Qc_of_Z_inj (a b : Z) : Qc_of_Z a = Qc_of_Z b → a = b.
Proof. intros H. apply (f_equal this) in H. by injection H. Qed.

(** C4, as stated, fails: a ticket without any status change, created at
    00:00 and analyzed at 10:00, has no transitions to replay, and its
    duration map is not {New Issues: 10}. *)
Lemma no_transitions_counterexample :
  strptime_sample (created (fields issue_untouched)) = Ok t0
  ∧ _get_status_changes strptime_sample issue_untouched = Ok []
  ∧ analyze_issue strptime_sample (t0 + 10 * hour) issue_untouched
    ≠ Ok {[ "New Issues" := Qc_of_Z 10 ]}.
Proof.
  split; [done|]. split; [done|].
  change (analyze_issue strptime_sample (t0 + 10 * hour) issue_untouched)
    with (Ok (∅ : gmap string Qc)).
  intros H.
  assert ((∅ : gmap string Qc) = {[ "New Issues" := Qc_of_Z 10 ]}) as H'
    by congruence.
  apply (f_equal (.!! "New Issues")) in H'.
  by rewrite lookup_empty, lookup_singleton_eq in H'.
Qed.

(** C4, amended: for a ticket with an empty transition sequence, whatever
    its creation time and the time of the analysis, the duration
    calculation yields the empty map. *)
Theorem no_transitions_empty_map (strptime : string → Exc Z) (now : Z)
    (issue : Issue) :
  (∀ h item, h ∈ histories issue → item ∈ history_items h →
             item_field item ≠ "status") →
  _get_status_changes strptime issue = Ok []
  ∧ _calculate_status_durations now [] = ∅
  ∧ analyze_issue strptime now issue = Ok ∅.
Proof.
  intros Hno. unfold analyze_issue, _get_status_changes.
  by rewrite collect_status_changes_none.
Qed.

Lemma no_transitions_empty_map_witness :
  analyze_issue strptime_sample (t0 + 10 * hour) issue_untouched = Ok ∅.
Proof.
  apply (no_transitions_empty_map strptime_sample (t0 + 10 * hour) issue_untouched).
  intros h item Hh Hitem.
  apply list_elem_of_singleton in Hh as ->.
  apply list_elem_of_singleton in Hitem as ->. done.
Defined.

Lemma analyze_sample_done (now : Z) :
  analyze_issue strptime_sample now issue_done
  = Ok (_calculate_status_durations now (scenario_changes t0)).
Proof. reflexivity. Qed.

Lemma analyze_sample_open (now : Z) :
  analyze_issue strptime_sample now issue_open
  = Ok (_calculate_status_durations now
          [mkChange "New" "In Progress" (t0 + 5 * hour)]).
Proof. reflexivity. Qed.

(** C2, as stated, fails twice.  A ticket that reached Done 26 hours after
    its creation adds up to 26 hours, not to the 100 hours up to [now]; and a
    ticket created at 00:00 whose first transition is at 05:00 gets no time
    in the initial status for those five hours: analyzed at 10:00 its map
    has New Issues at 0 and adds up to 5 hours, not 10.  This is so in exact
    rationals and in binary64 alike. *)
Lemma sum_since_creation_counterexample :
  (∃ d, strptime_sample (created (fields issue_done)) = Ok t0
        ∧ analyze_issue strptime_sample (t0 + 100 * hour) issue_done = Ok d
        ∧ sum_durations d ≠ hours_between (t0 + 100 * hour) t0)
  ∧ (∃ d, strptime_sample (created (fields issue_open)) = Ok t0
          ∧ analyze_issue strptime_sample (t0 + 10 * hour) issue_open = Ok d
          ∧ d !! "New Issues" = Some 0%Qc
          ∧ sum_durations d ≠ hours_between (t0 + 10 * hour) t0)
  ∧ (∃ d, analyze_issue_with PrimFloat.zero PrimFloat.add hours_binary64
            strptime_sample (t0 + 100 * hour) issue_done = Ok d
          ∧ sum_with PrimFloat.zero PrimFloat.add d = 26%float
          ∧ hours_binary64 (t0 + 100 * hour - t0) = 100%float)
  ∧ (∃ d, analyze_issue_with PrimFloat.zero PrimFloat.add hours_binary64
            strptime_sample (t0 + 10 * hour) issue_open = Ok d
          ∧ d !! "New Issues" = Some 0%float
          ∧ sum_with PrimFloat.zero PrimFloat.add d = 5%float
          ∧ hours_binary64 (t0 + 10 * hour - t0) = 10%float).
Proof.
  split; [|split; [|split]]; [| |eexists; split; [reflexivity|];
                                 repeat split; vm_compute; reflexivity..].
  - eexists. split; [done|]. split; [apply analyze_sample_done|].
    rewrite (calculate_sum _ (scenario_changes t0)
               (mkChange "None" "New Issues" t0)
               (mkChange "In Progress" "Done" (t0 + 26 * hour))) by done.
    simpl. rewrite !hours_between_after. intros H.
    by apply Qc_of_Z_inj in H.
  - eexists. split; [done|]. split; [apply analyze_sample_open|]. split.
    + unfold _calculate_status_durations. simpl.
      rewrite accrue_lookup_ne by done. rewrite accrue_lookup_eq.
      rewrite lookup_empty, hours_between_diag. simpl. f_equal; ring.
    + rewrite (calculate_sum _ _
                 (mkChange "New" "In Progress" (t0 + 5 * hour))
                 (mkChange "New" "In Progress" (t0 + 5 * hour))) by done.
      simpl. rewrite (hours_between_from t0 10 5), hours_between_after.
      intros H. by apply Qc_of_Z_inj in H.
Qed.

(** C5: [_get_status_changes] hands the calculation the status changes in
    ascending order of timestamp, changes with the same timestamp in their
    original relative order; so a ticket whose changelog lists the changes
    out of order gets the same duration map as one that lists them
    pre-sorted, and as any rearrangement that keeps the relative order of
    equal timestamps. *)
Theorem replayer_sorts_before_calculating (strptime : string → Exc Z)
    (issue : Issue) (raw : list StatusChange) :
  collect_status_changes strptime (histories issue) = Ok raw →
  let status_changes := sorted timestamp raw in
  _get_status_changes strptime issue = Ok status_changes
  ∧ ascending timestamp status_changes
  ∧ status_changes ≡ₚ raw
  ∧ (∀ t, filter (λ c, timestamp c = t) status_changes
          = filter (λ c, timestamp c = t) raw)
  ∧ (∀ now presorted,
       collect_status_changes strptime (histories presorted) = Ok status_changes →
       analyze_issue strptime now presorted = analyze_issue strptime now issue)
  ∧ (∀ now other raw',
       collect_status_changes strptime (histories other) = Ok raw' →
       (∀ t, filter (λ c, timestamp c = t) raw'
             = filter (λ c, timestamp c = t) raw) →
       analyze_issue strptime now other = analyze_issue strptime now issue).
Proof.
  intros Hraw status_changes. subst status_changes.
  assert (_get_status_changes strptime issue = Ok (sorted timestamp raw)) as Hget
    by (unfold _get_status_changes; by rewrite Hraw).
  split; [done|]. split; [apply sorted_ascending|].
  split; [apply sorted_perm|]. split; [intros t; apply sorted_stable|].
  split.
  - intros now presorted Hpre. unfold analyze_issue, _get_status_changes.
    rewrite Hpre, Hraw. simpl. by rewrite sorted_idempotent.
  - intros now other raw' Hother Hsame. unfold analyze_issue, _get_status_changes.
    rewrite Hother, Hraw. simpl. by rewrite (sorted_ext timestamp raw' raw).
Qed.

Lemma replayer_sorts_before_calculating_witness :
  _get_status_changes strptime_sample issue_done = Ok (scenario_changes t0).
Proof.
  apply (replayer_sorts_before_calculating strptime_sample issue_done
           [ mkChange "In Progress" "Done" (t0 + 26 * hour);
             mkChange "New Issues" "In Progress" (t0 + 2 * hour);
             mkChange "None" "New Issues" t0 ]).
  reflexivity.
Defined.

(** * The denominators of the per-status averages *)

Lemma report_line (results : list (string * IssueData)) (status : string)
    (total avg : Qc) :
  (status, total, avg) ∈ overall_status_report results
  ↔ results ≠ [] ∧ status ∈ EXPECTED_STATUSES
    ∧ tickets_with_status status results ≠ []
    ∧ total = status_total status results
    ∧ avg = (status_total status results
             / Qc_of_Z (Z.of_nat (length (tickets_with_status status results))))%Qc.
Proof.
  unfold overall_status_report. destruct results as [|e results].
  { split; [intros H; by apply elem_of_nil in H|]. by intros [? _]. }
  rewrite list_elem_of_omap. split.
  - intros (s & Hs & Hline). rewrite aggregate_agg in Hline.
    case_decide as Hnone; simpl in Hline; [done|].
    simplify_eq. done.
  - intros (_ & Hs & Hsome & -> & ->). exists status. split; [done|].
    rewrite aggregate_agg. by rewrite decide_False.
Qed.

Lemma tickets_with_status_all (status : string)
    (results : list (string * IssueData)) :
  (∀ k d, (k, d) ∈ results → is_Some (durations d !! status)) →
  tickets_with_status status results = results.
Proof.
  induction results as [|[k d] results IH]; intros Hall; [done|].
  rewrite tickets_with_status_cons.
  rewrite decide_True by (apply (Hall k); left). simpl. f_equal.
  apply IH. intros k' d' Hin. apply (Hall k'). by right.
Qed.

(** C10: the map returned for a non-empty sequence of status changes
    (sorted or not) always has the key "New Issues"; the first round of the
    loop accrues 0 hours to it, which is all it gets when the ticket never
    enters that status; and so every ticket with a status change counts in
    the denominator of the "New Issues" average. *)
Theorem initial_status_always_present :
  (∀ now first rest,
     is_Some (_calculate_status_durations now (first :: rest) !! "New Issues"))
  ∧ (∀ now change,
       to_status change ≠ "New Issues" →
       _calculate_status_durations now [change] !! "New Issues" = Some 0%Qc)
  ∧ (∀ results,
       results ≠ [] →
       (∀ k d, (k, d) ∈ results →
          ∃ now first rest,
            durations d = _calculate_status_durations now (first :: rest)) →
       ("New Issues", status_total "New Issues" results,
        (status_total "New Issues" results
         / Qc_of_Z (Z.of_nat (length results)))%Qc)
       ∈ overall_status_report results).
Proof.
  split; [|split].
  - apply calculate_has_initial_status.
  - intros now change Hto. unfold _calculate_status_durations. simpl.
    rewrite hours_between_diag.
    assert (accrue "New Issues" 0%Qc ∅ !! "New Issues" = Some 0%Qc) as H0.
    { rewrite accrue_lookup_eq, lookup_empty. simpl. f_equal; ring. }
    case_decide; [|done]. by rewrite accrue_lookup_ne.
  - intros results Hne Hall.
    assert (tickets_with_status "New Issues" results = results) as Hwith.
    { apply tickets_with_status_all. intros k d Hin.
      destruct (Hall k d Hin) as (now & first & rest & ->).
      apply calculate_has_initial_status. }
    apply report_line. rewrite Hwith. repeat split; try done.
    unfold EXPECTED_STATUSES. set_solver.
Qed.

Lemma initial_status_always_present_witness :
  ("New Issues", status_total "New Issues" results_replayed,
   (status_total "New Issues" results_replayed / Qc_of_Z 2)%Qc)
  ∈ overall_status_report results_replayed.
Proof.
  apply (proj2 (proj2 initial_status_always_present) results_replayed); [done|].
  intros k d Hin. apply elem_of_cons in Hin as [Hin|Hin].
  - injection Hin as -> ->.
    exists (t0 + 10 * hour), (mkChange "None" "New Issues" t0),
           [ mkChange "New Issues" "In Progress" (t0 + 2 * hour);
             mkChange "In Progress" "Done" (t0 + 26 * hour) ].
    reflexivity.
  - apply list_elem_of_singleton in Hin. injection Hin as -> ->.
    exists (t0 + 10 * hour), (mkChange "New" "In Progress" (t0 + 5 * hour)), [].
    reflexivity.
Defined.

(** * The aggregation *)

(** C6: the category buckets partition the analyzed tickets.  The counts of
    all buckets add up to the number of tickets; a bucket counts and lists,
    once each, keys of analyzed tickets; every ticket key is listed in the
    bucket of its category and in no other; and a ticket whose grouping
    value is missing or null is listed in the "Not Set" bucket. *)
Theorem category_buckets_partition (results : list (string * IssueData)) :
  NoDup results.*1 →
  let buckets := category_stats (aggregate results) in
  sum_counts buckets = length results
  ∧ (∀ c st, buckets !! c = Some st →
       count st = length (issues st) ∧ NoDup (issues st)
       ∧ ∀ k, k ∈ issues st → k ∈ results.*1)
  ∧ (∀ k d, (k, d) ∈ results →
       (∃ st, buckets !! category_of d = Some st ∧ k ∈ issues st)
       ∧ ∀ c st, buckets !! c = Some st → k ∈ issues st → c = category_of d)
  ∧ (∀ k d, (k, d) ∈ results → grouping_field_value d = None →
       ∃ st, buckets !! "Not Set" = Some st ∧ k ∈ issues st).
Proof.
  intros Hnd buckets. destruct (aggregate_stats results) as [Hsum Hc].
  fold buckets in Hsum, Hc.
  assert (∀ k d, (k, d) ∈ results →
            ∃ st, buckets !! category_of d = Some st ∧ k ∈ issues st) as Hin.
  { intros k d Hkd. apply getitem_stats_elem.
    destruct (Hc (category_of d)) as [_ ->].
    apply elem_of_keys_in_category. eauto. }
  split; [done|]. split; [|split].
  - intros c st Hst. destruct (Hc c) as [Hcount Hissues].
    rewrite (getitem_stats_Some _ _ _ Hst) in Hcount, Hissues.
    rewrite Hcount, Hissues. split; [done|].
    split; [by apply NoDup_keys_in_category|].
    intros k Hk. apply elem_of_keys_in_category in Hk as (d & Hkd & _).
    apply list_elem_of_fmap. by exists (k, d).
  - intros k d Hkd. split; [by apply Hin|].
    intros c st Hst Hk. destruct (Hc c) as [_ Hissues].
    rewrite (getitem_stats_Some _ _ _ Hst) in Hissues. rewrite Hissues in Hk.
    apply elem_of_keys_in_category in Hk as (d' & Hkd' & <-).
    by rewrite (NoDup_fst_functional results k d d').
  - intros k d Hkd Hnone. specialize (Hin k d Hkd).
    unfold category_of in Hin. by rewrite Hnone in Hin.
Qed.

Lemma category_buckets_partition_witness :
  sum_counts (category_stats (aggregate results_sample)) = 2%nat
  ∧ ∃ st, category_stats (aggregate results_sample) !! "Not Set" = Some st
          ∧ "CN-2" ∈ issues st.
Proof.
  assert (NoDup results_sample.*1) as Hnd.
  { simpl. apply NoDup_cons. split; [|apply NoDup_singleton].
    intros H. by apply list_elem_of_singleton in H. }
  pose proof (category_buckets_partition results_sample Hnd) as (Hsum & _ & _ & Hnot).
  split; [exact Hsum|].
  eapply Hnot; [left|reflexivity].
Defined.

(** C7, as stated, fails: of two tickets, one with 0 hours and one with 4
    hours in New Issues, only the second had any time in that status, yet
    the reported average of New Issues is 4 / 2 = 2 hours, not 4 / 1. *)
Lemma average_denominator_counterexample :
  length (tickets_with_time "New Issues" results_sample) = 1%nat
  ∧ ("New Issues", Qc_of_Z 4, Qc_of_Z 2) ∈ overall_status_report results_sample
  ∧ Qc_of_Z 2
    ≠ (Qc_of_Z 4
       / Qc_of_Z (Z.of_nat (length (tickets_with_time "New Issues" results_sample))))%Qc.
Proof.
  assert (length (tickets_with_time "New Issues" results_sample) = 1%nat) as Hlen
    by reflexivity.
  split; [done|]. split.
  - apply report_line. split; [done|]. split; [unfold EXPECTED_STATUSES; set_solver|].
    split; [done|]. split; apply Qc_is_canon; reflexivity.
  - rewrite Hlen. intros H. apply (f_equal this) in H. discriminate H.
Qed.

(** C7, amended: the reported average of a status is its global total
    divided by the number of tickets whose duration map has an entry for
    that status, entries of 0 hours included; the statuses reported are the
    expected ones with such a ticket. *)
Theorem average_is_total_over_entries (results : list (string * IssueData))
    (status : string) (total avg : Qc) :
  (status, total, avg) ∈ overall_status_report results →
  status ∈ EXPECTED_STATUSES
  ∧ (0 < length (tickets_with_status status results))%nat
  ∧ total = status_total status results
  ∧ avg = (total / Qc_of_Z (Z.of_nat (length (tickets_with_status status results))))%Qc.
Proof.
  intros Hline. apply report_line in Hline as (_ & Hs & Hsome & -> & ->).
  split; [done|]. split; [|done].
  destruct (tickets_with_status status results); [done|simpl; lia].
Qed.

Lemma average_is_total_over_entries_witness :
  length (tickets_with_status "New Issues" results_sample) = 2%nat
  ∧ Qc_of_Z 2
    = (Qc_of_Z 4
       / Qc_of_Z (Z.of_nat (length (tickets_with_status "New Issues" results_sample))))%Qc.
Proof.
  split; [reflexivity|].
  apply (average_is_total_over_entries results_sample "New Issues"
           (Qc_of_Z 4) (Qc_of_Z 2)).
  apply report_line. split; [done|]. split; [unfold EXPECTED_STATUSES; set_solver|].
  split; [done|]. split; apply Qc_is_canon; reflexivity.
Defined.

(** * Failures of the fetch and of single tickets *)

(** C8: [get_issues_by_jql] never ends in an exception.  When the count
    query fails it returns the empty list.  When the pages before the
    [k+1]-th arrive without reaching the total and the [k+1]-th fails, it
    returns exactly the tickets of those [k] pages; [k + 1] rounds of the
    loop are enough for that. *)
Theorem fetch_failures_do_not_escape (jira : Jira) (jql_query : string)
    (max_results_per_page : Z) (custom_field_id : string) :
  (∀ fuel msg,
     get_issues_by_jql jira fuel jql_query max_results_per_page custom_field_id
     ≠ Some (Raise msg))
  ∧ (∀ fuel msg,
       enhanced_search_total jira jql_query = Raise msg →
       get_issues_by_jql jira fuel jql_query max_results_per_page custom_field_id
       = Some (Ok []))
  ∧ (∀ fuel total_issues pages msg,
       enhanced_search_total jira jql_query = Ok total_issues →
       (∀ i page, pages !! i = Some page →
          fetch_page jira jql_query (Z.of_nat i * max_results_per_page)
                     max_results_per_page custom_field_id = Ok page) →
       (∀ i, (i < length pages)%nat →
          Z.of_nat (length (concat (take (S i) pages))) < total_issues) →
       fetch_page jira jql_query (Z.of_nat (length pages) * max_results_per_page)
                  max_results_per_page custom_field_id = Raise msg →
       (length pages < fuel)%nat →
       get_issues_by_jql jira fuel jql_query max_results_per_page custom_field_id
       = Some (Ok (concat pages))).
Proof.
  split; [|split].
  - intros fuel msg H. by apply get_issues_by_jql_returns in H as [l ?].
  - intros fuel msg Hcount. unfold get_issues_by_jql. by rewrite Hcount.
  - intros fuel total pages msg Hcount Hok Hlt Hfail Hfuel.
    unfold get_issues_by_jql. rewrite Hcount.
    by rewrite (fetch_loop_page_failure jira jql_query custom_field_id
                  max_results_per_page total pages [] 0 fuel msg).
Qed.

Lemma fetch_failures_do_not_escape_witness :
  get_issues_by_jql jira_sample 2 "project = CN" 2 "customfield_10476"
  = Some (Ok [issue_done; issue_malformed]).
Proof.
  apply (proj2 (proj2 (fetch_failures_do_not_escape jira_sample "project = CN" 2
                         "customfield_10476"))
           2%nat 5 [[issue_done; issue_malformed]] "500 Server Error").
  - reflexivity.
  - intros [|[|i]] page Hi; simpl in Hi; [|done..]. by injection Hi as <-.
  - intros i Hi. simpl in Hi. assert (i = 0%nat) as -> by lia. simpl. lia.
  - reflexivity.
  - simpl. lia.
Defined.

(** C9: a ticket whose processing fails is skipped and the others are
    processed.  The batch returns a result for whatever list the fetch
    returned; a key has an entry exactly when the processing of some
    fetched ticket with that key succeeded; when the fetched keys are
    distinct, the entry of every ticket that was processed successfully is
    its data, and a ticket whose processing raised has no entry; and a
    status change whose timestamp does not parse makes the processing of
    its ticket raise. *)
Theorem ticket_failure_skips_only_that_ticket (strptime : string → Exc Z)
    (clock : nat → Z) (custom_field_id field_name : string) (jira : Jira)
    (fuel : nat) (jql_query : string) (max_results_per_page : Z)
    (issues : list Issue) :
  get_issues_by_jql jira fuel jql_query max_results_per_page custom_field_id
  = Some (Ok issues) →
  ∃ results,
    analyze_multiple_issues strptime clock custom_field_id field_name jira fuel
                            jql_query max_results_per_page = Some results
    ∧ (∀ k, is_Some (dict_get k results)
            ↔ ∃ j issue data,
                issues !! j = Some issue ∧ key issue = k
                ∧ process_issue strptime custom_field_id field_name
                                (clock (S j)) issue = Ok data)
    ∧ (NoDup (key <$> issues) →
       ∀ j issue, issues !! j = Some issue →
         dict_get (key issue) results
         = match process_issue strptime custom_field_id field_name
                               (clock (S j)) issue with
           | Ok data => Some data
           | Raise _ => None
           end)
    ∧ (∀ now issue h item msg,
         h ∈ histories issue → item ∈ history_items h →
         item_field item = "status" →
         strptime (history_created h) = Raise msg →
         ∃ msg', process_issue strptime custom_field_id field_name now issue
                 = Raise msg').
Proof.
  intros Hfetch. exists (analyze_loop strptime clock custom_field_id field_name 1 issues []).
  split; [|split; [|split]].
  - unfold analyze_multiple_issues. by rewrite Hfetch.
  - intros k. rewrite analyze_loop_dom. simpl. split.
    + intros [[? ?]|H]; [done|exact H].
    + intros H. right. exact H.
  - intros Hnd j issue Hj.
    by rewrite (analyze_loop_lookup strptime clock custom_field_id field_name
                  issues 1 j issue []).
  - intros now issue h item msg. apply process_issue_malformed.
Qed.

Lemma ticket_failure_skips_only_that_ticket_witness :
  ∃ results,
    analyze_multiple_issues strptime_sample (λ _, t0 + 100 * hour)
      "customfield_10476" "Idea Category" jira_sample 2 "project = CN" 2
    = Some results
    ∧ is_Some (dict_get "CN-1" results)
    ∧ dict_get "CN-4" results = None.
Proof.
  destruct (ticket_failure_skips_only_that_ticket strptime_sample
              (λ _, t0 + 100 * hour) "customfield_10476" "Idea Category"
              jira_sample 2 "project = CN" 2 [issue_done; issue_malformed]
              eq_refl) as (results & Hres & _ & Hlookup & _).
  assert (NoDup (key <$> [issue_done; issue_malformed])) as Hnd.
  { simpl. apply NoDup_cons. split; [|apply NoDup_singleton].
    intros H. by apply list_elem_of_singleton in H. }
  exists results. split; [exact Hres|]. split.
  - change "CN-1" with (key issue_done).
    rewrite (Hlookup Hnd 0%nat issue_done eq_refl). by eexists.
  - exact (Hlookup Hnd 1%nat issue_malformed eq_refl).
Defined.

(** * Further properties of the duration calculation *)

Lemma Qc_of_Z_nonneg (n : Z) : 0 ≤ n → (0 ≤ Qc_of_Z n)%Qc.
Proof.
  intros Hn. unfold Qcle, Qc_of_Z; simpl. unfold Qle; simpl. lia.
Qed.

Lemma hours_between_nonneg (a b : Z) : b ≤ a → (0 ≤ hours_between a b)%Qc.
Proof.
  intros Hab. unfold hours_between, total_seconds.
  assert (0 ≤ / Qc_of_Z 1000000)%Qc as H1 by done.
  assert (0 ≤ / Qc_of_Z 3600)%Qc as H2 by done.
  pose proof (Qc_of_Z_nonneg (a - b) ltac:(lia)) as H0.
  unfold Qcdiv.
  pose proof (Qcmult_le_compat_r _ _ _ H0 H1) as H3.
  rewrite Qcmult_0_l in H3.
  pose proof (Qcmult_le_compat_r _ _ _ H3 H2) as H4.
  by rewrite Qcmult_0_l in H4.
Qed.

Lemma accrue_nonneg (k : string) (x : Qc) (d : gmap string Qc) :
  (0 ≤ x)%Qc → (∀ k' h, d !! k' = Some h → (0 ≤ h)%Qc) →
  ∀ k' h, accrue k x d !! k' = Some h → (0 ≤ h)%Qc.
Proof.
  intros Hx Hd k' h. destruct (decide (k = k')) as [->|Hne].
  - rewrite accrue_lookup_eq. intros [= <-].
    assert (0 ≤ default 0 (d !! k'))%Qc as H0.
    { destruct (d !! k') as [h0|] eqn:Hk; simpl; [by eapply Hd|done]. }
    pose proof (Qcplus_le_compat _ _ _ _ H0 Hx) as H.
    by rewrite Qcplus_0_l in H.
  - rewrite accrue_lookup_ne by done. apply Hd.
Qed.

Lemma replay_nonneg (l : list StatusChange) s t d :
  ascending timestamp l → Forall (λ c, t ≤ timestamp c) l →
  (∀ k h, d !! k = Some h → (0 ≤ h)%Qc) →
  ∀ k h, (replay l s t d).2 !! k = Some h → (0 ≤ h)%Qc.
Proof.
  intros Hasc. revert s t d. unfold ascending in Hasc.
  induction Hasc as [|c l Hl IH Hc]; intros s t d Ht Hd; [done|].
  simpl. apply Forall_cons in Ht as [Htc _]. apply IH; [done|].
  apply accrue_nonneg; [|done]. by apply hours_between_nonneg.
Qed.

(** The hours of every status are non-negative when the changes are in
    ascending order and the analysis does not run before the last one. *)
Theorem durations_are_nonnegative (now : Z) (status_changes : list StatusChange) :
  ascending timestamp status_changes →
  (∀ final, last status_changes = Some final → timestamp final ≤ now) →
  ∀ status hours,
    _calculate_status_durations now status_changes !! status = Some hours →
    (0 ≤ hours)%Qc.
Proof.
  intros Hasc Hnow. destruct status_changes as [|first rest]; [done|].
  unfold _calculate_status_durations.
  pose proof (replay_nonneg (first :: rest) "New Issues" (timestamp first) ∅
                Hasc) as Hnn.
  pose proof (replay_time (first :: rest) "New Issues" (timestamp first) ∅) as Ht.
  destruct (replay (first :: rest) "New Issues" (timestamp first) ∅)
    as [[s t] d].
  simpl in Hnn, Ht.
  assert (∀ k h, d !! k = Some h → (0 ≤ h)%Qc) as Hd.
  { apply Hnn; [|done]. unfold ascending in Hasc.
    apply StronglySorted_inv in Hasc as [_ Hfirst].
    apply Forall_cons. split; [lia|done]. }
  destruct (last (first :: rest)) as [final|] eqn:Hlast;
    [|by apply last_None in Hlast].
  simpl in Ht. subst t. specialize (Hnow final eq_refl).
  case_decide; [|done].
  apply accrue_nonneg; [|done]. by apply hours_between_nonneg.
Qed.

Lemma durations_are_nonnegative_witness :
  ∃ hours,
    _calculate_status_durations (t0 + 100 * hour) (scenario_changes t0)
      !! "New Issues" = Some hours
    ∧ (0 ≤ hours)%Qc.
Proof.
  destruct (calculate_has_initial_status (t0 + 100 * hour)
              (mkChange "None" "New Issues" t0)
              [ mkChange "New Issues" "In Progress" (t0 + 2 * hour);
                mkChange "In Progress" "Done" (t0 + 26 * hour) ]) as [hours Hh].
  exists hours. split; [exact Hh|].
  apply (durations_are_nonnegative (t0 + 100 * hour) (scenario_changes t0))
    with (status := "New Issues"); [| |exact Hh].
  - unfold ascending, scenario_changes.
    repeat (constructor; [|repeat constructor; simpl; unfold hour; lia]).
    constructor.
  - intros final [= <-]. simpl. unfold hour. lia.
Defined.

Lemma accrue_is_Some_iff (k k' : string) (x : Qc) (d : gmap string Qc) :
  is_Some (accrue k x d !! k') ↔ k' = k ∨ is_Some (d !! k').
Proof.
  destruct (decide (k = k')) as [->|Hne].
  - rewrite accrue_lookup_eq. split; [auto|eauto].
  - rewrite accrue_lookup_ne by done. split; [auto|]. intros [?|?]; [congruence|done].
Qed.

(** The statuses the loop accrues to: the status that is current in each
    round. *)
Lemma replay_keys (l : list StatusChange) s t d (k : string) :
  is_Some ((replay l s t d).2 !! k)
  ↔ is_Some (d !! k) ∨ k ∈ take (length l) (s :: (to_status <$> l)).
Proof.
  revert s t d. induction l as [|c l IH]; intros s t d.
  - simpl. split; [auto|]. intros [?|H]; [done|]. by apply elem_of_nil in H.
  - simpl. rewrite IH, accrue_is_Some_iff, elem_of_cons. tauto.
Qed.

(** The keys of the returned map: the initial status, the status every
    change but the last leads to, and the status the last change leads to
    unless that is "Done". *)
Theorem duration_map_keys (now : Z) (earlier : list StatusChange)
    (final : StatusChange) (status : string) :
  is_Some (_calculate_status_durations now (earlier ++ [final]) !! status)
  ↔ status = "New Issues" ∨ status ∈ (to_status <$> earlier)
    ∨ (status = to_status final ∧ status ≠ "Done").
Proof.
  assert (∃ first rest, earlier ++ [final] = first :: rest) as (first & rest & Heq).
  { destruct earlier; simpl; eauto. }
  unfold _calculate_status_durations. rewrite Heq.
  pose proof (replay_keys (first :: rest) "New Issues" (timestamp first) ∅ status)
    as Hkeys.
  pose proof (replay_status (first :: rest) "New Issues" (timestamp first) ∅) as Hs.
  destruct (replay (first :: rest) "New Issues" (timestamp first) ∅)
    as [[s t] d].
  simpl fst in Hs. simpl snd in Hkeys, Hs. rewrite <- Heq in Hkeys, Hs.
  rewrite last_snoc in Hs. simpl in Hs. subst s.
  rewrite lookup_empty in Hkeys.
  rewrite fmap_app, length_app in Hkeys. simpl in Hkeys.
  replace (length earlier + 1)%nat with (S (length earlier)) in Hkeys by lia.
  simpl in Hkeys. rewrite take_app_length' in Hkeys by by rewrite length_fmap.
  rewrite elem_of_cons in Hkeys.
  case_decide as Hdone.
  - rewrite accrue_is_Some_iff, Hkeys. split.
    + intros [->|[[? ?]|[?|?]]]; auto; done.
    + intros [?|[?|[? ?]]]; auto.
  - rewrite Hkeys. split.
    + intros [[? ?]|[?|?]]; auto; done.
    + intros [?|[?|[-> ?]]]; auto. done.
Qed.

Lemma hours_between_shift (a b delta : Z) :
  hours_between (a + delta) (b + delta) = hours_between a b.
Proof. unfold hours_between. f_equal. f_equal. lia. Qed.

Lemma replay_shift (delta : Z) (l : list StatusChange) s t d :
  replay ((λ c, mkChange (from_status c) (to_status c) (timestamp c + delta)) <$> l)
         s (t + delta) d
  = ((replay l s t d).1.1, (replay l s t d).1.2 + delta, (replay l s t d).2).
Proof.
  revert s t d. induction l as [|c l IH]; intros s t d; [done|].
  cbn [fmap list_fmap replay timestamp to_status].
  by rewrite hours_between_shift, IH.
Qed.

(** Only differences of instants matter: moving every timestamp and the
    time of the analysis by the same amount leaves the map as it is. *)
Theorem durations_invariant_under_time_shift (delta now : Z)
    (status_changes : list StatusChange) :
  _calculate_status_durations (now + delta)
    ((λ c, mkChange (from_status c) (to_status c) (timestamp c + delta))
       <$> status_changes)
  = _calculate_status_durations now status_changes.
Proof.
  destruct status_changes as [|first rest]; [done|].
  unfold _calculate_status_durations.
  change ((λ c, mkChange (from_status c) (to_status c) (timestamp c + delta))
            <$> first :: rest)
    with (mkChange (from_status first) (to_status first) (timestamp first + delta)
          :: ((λ c, mkChange (from_status c) (to_status c) (timestamp c + delta))
                <$> rest)).
  cbn [timestamp].
  change (mkChange (from_status first) (to_status first) (timestamp first + delta)
          :: ((λ c, mkChange (from_status c) (to_status c) (timestamp c + delta))
                <$> rest))
    with ((λ c, mkChange (from_status c) (to_status c) (timestamp c + delta))
            <$> first :: rest).
  rewrite replay_shift.
  destruct (replay (first :: rest) "New Issues" (timestamp first) ∅)
    as [[s t] d].
  simpl. case_decide; [|done]. by rewrite hours_between_shift.
Qed.

(** * Further properties of the replayer *)

Lemma str_or_nonempty (v : option string) (dflt : string) :
  dflt ≠ "" → str_or v dflt ≠ "".
Proof. intros Hd. unfold str_or. destruct v as [s|]; [|done]. by case_decide. Qed.

Section ReplayerMore.
Variable strptime : string → Exc Z.

Lemma str_or_reads_as (v : option string) : reads_as v (str_or v "None").
Proof.
  unfold reads_as, str_or. split.
  - intros [->| ->]; done.
  - intros s -> Hs. by rewrite decide_False.
Qed.

Lemma reads_as_nonempty (v : option string) (name : string) :
  reads_as v name → name ≠ "".
Proof.
  intros [Hnone Hsome]. destruct v as [s|].
  - destruct (decide (s = "")) as [->|Hs].
    + rewrite Hnone by auto. done.
    + by rewrite (Hsome s eq_refl Hs).
  - rewrite Hnone by auto. done.
Qed.

Lemma status_items_ok (h : History) (items : list ChangeItem)
    (l : list StatusChange) :
  status_items strptime h items = Ok l →
  Forall2 (change_reads strptime) l
          ((λ item, (h, item))
             <$> filter (λ item, item_field item = "status") items).
Proof.
  revert l. induction items as [|item items IH]; intros l.
  - intros [= <-]. constructor.
  - simpl. rewrite filter_cons. case_decide as Hf; [|apply IH].
    destruct (strptime (history_created h)) as [t|msg] eqn:Hp; simpl; [|done].
    destruct (status_items strptime h items) as [tl|msg]; simpl; [|done].
    intros [= <-]. constructor; [|by apply IH].
    unfold change_reads. cbn [from_status to_status timestamp fst snd].
    split; [apply str_or_reads_as|]. split; [apply str_or_reads_as|done].
Qed.

Lemma collect_status_changes_ok (hs : list History) (l : list StatusChange) :
  collect_status_changes strptime hs = Ok l →
  Forall2 (change_reads strptime) l (status_entries hs).
Proof.
  revert l. induction hs as [|h hs IH]; intros l.
  - intros [= <-]. constructor.
  - simpl.
    destruct (status_items strptime h (history_items h)) as [here|msg] eqn:Hh;
      simpl; [|done].
    destruct (collect_status_changes strptime hs) as [tl|msg]; simpl; [|done].
    intros [= <-].
    change (status_entries (h :: hs))
      with (((λ item, (h, item))
               <$> filter (λ item, item_field item = "status") (history_items h))
            ++ status_entries hs).
    apply Forall2_app; [by apply status_items_ok|by apply IH].
Qed.

Lemma status_items_raise_inv (h : History) (items : list ChangeItem) (msg : string) :
  status_items strptime h items = Raise msg →
  ∃ item, item ∈ items ∧ item_field item = "status"
          ∧ strptime (history_created h) = Raise msg.
Proof.
  induction items as [|item items IH]; [done|].
  simpl. case_decide as Hf.
  - destruct (strptime (history_created h)) as [t|msg'] eqn:Hp; simpl.
    + destruct (status_items strptime h items) as [tl|msg'] eqn:Htl; simpl; [done|].
      intros [= ->]. destruct (IH eq_refl) as (item' & Hin & Hf' & Hp').
      congruence.
    + intros [= ->]. exists item. split; [left|done].
  - intros H. destruct (IH H) as (item' & Hin & ?). exists item'.
    split; [by right|done].
Qed.

Lemma collect_status_changes_raise_inv (hs : list History) (msg : string) :
  collect_status_changes strptime hs = Raise msg →
  ∃ h item, h ∈ hs ∧ item ∈ history_items h ∧ item_field item = "status"
            ∧ strptime (history_created h) = Raise msg.
Proof.
  induction hs as [|h hs IH]; [done|].
  simpl.
  destruct (status_items strptime h (history_items h)) as [here|msg'] eqn:Hh; simpl.
  - destruct (collect_status_changes strptime hs) as [tl|msg']; simpl; [done|].
    intros [= ->]. destruct (IH eq_refl) as (h' & item & Hin & ?).
    exists h', item. split; [by right|done].
  - intros [= ->]. apply status_items_raise_inv in Hh as (item & ? & ? & ?).
    exists h, item. split; [left|done].
Qed.

(** The list of status changes of a ticket is a rearrangement, in ascending
    order of timestamp, of the list that reads the status items of the
    changelog one by one, in the order of the changelog: the change of an
    item carries the parsed timestamp of the item's history, its from
    status is the item's [fromString] and its to status the item's
    [toString], each of them "None" when it is missing or empty.  So there
    is one change per status item and no change has an empty from or to
    status. *)
Theorem status_changes_are_normalized (issue : Issue)
    (status_changes : list StatusChange) :
  _get_status_changes strptime issue = Ok status_changes →
  (∃ raw,
     Forall2 (change_reads strptime) raw (status_entries (histories issue))
     ∧ status_changes ≡ₚ raw
     ∧ ∀ t, filter (λ c, timestamp c = t) status_changes
            = filter (λ c, timestamp c = t) raw)
  ∧ ascending timestamp status_changes
  ∧ length status_changes = length (status_entries (histories issue))
  ∧ ∀ c, c ∈ status_changes → from_status c ≠ "" ∧ to_status c ≠ "".
Proof.
  intros Hget. apply get_status_changes_inv in Hget as (raw & Hraw & ->).
  pose proof (collect_status_changes_ok _ _ Hraw) as Hall.
  split; [|split; [|split]].
  - exists raw. split; [done|]. split; [apply sorted_perm|].
    intros t. apply sorted_stable.
  - apply sorted_ascending.
  - rewrite (Permutation_length (sorted_perm timestamp raw)).
    by eapply Forall2_length.
  - intros c Hc. rewrite (sorted_perm timestamp raw) in Hc.
    apply list_elem_of_lookup in Hc as [i Hi].
    destruct (Forall2_lookup_l _ _ _ _ _ Hall Hi) as (e & _ & Hfrom & Hto & _).
    split; by eapply reads_as_nonempty.
Qed.

(** Extracting the status changes raises exactly when the timestamp of a
    history that holds a status item does not parse; the timestamps of the
    other histories are never parsed. *)
Theorem status_changes_raise_iff (issue : Issue) :
  (∃ msg, _get_status_changes strptime issue = Raise msg)
  ↔ ∃ h item msg,
      h ∈ histories issue ∧ item ∈ history_items h
      ∧ item_field item = "status"
      ∧ strptime (history_created h) = Raise msg.
Proof.
  unfold _get_status_changes. split.
  - intros [msg Hraise].
    destruct (collect_status_changes strptime (histories issue)) as [raw|msg']
      eqn:Hc; simpl in Hraise; [done|].
    apply collect_status_changes_raise_inv in Hc as (h & item & ? & ? & ? & ?).
    by exists h, item, msg'.
  - intros (h & item & msg & Hh & Hitem & Hf & Hp).
    pose proof (status_items_raise strptime h _ item msg Hitem Hf Hp) as Hraise.
    destruct (collect_status_changes_raise strptime _ h msg Hh Hraise) as [msg' ->].
    by exists msg'.
Qed.
End ReplayerMore.

Lemma status_changes_are_normalized_witness :
  length (scenario_changes t0) = 3%nat
  ∧ ∃ raw,
      Forall2 (change_reads strptime_sample) raw
              (status_entries (histories issue_done))
      ∧ scenario_changes t0 ≡ₚ raw.
Proof.
  destruct (status_changes_are_normalized strptime_sample issue_done
              (scenario_changes t0) eq_refl)
    as ((raw & Hall & Hperm & _) & _ & Hlen & _).
  split; [exact Hlen|]. exists raw. split; [exact Hall|exact Hperm].
Defined.

Lemma status_changes_raise_iff_witness :
  ∃ msg, _get_status_changes strptime_sample issue_malformed = Raise msg.
Proof.
  apply (status_changes_raise_iff strptime_sample issue_malformed).
  exists (mkHistory "yesterday" [status_item "New Issues" "In Progress"]),
         (status_item "New Issues" "In Progress"),
         "time data does not match format".
  split; [left|]. split; [left|]. split; reflexivity.
Defined.

(** * Further properties of the fetch *)

Section FetcherMore.
Variable jira : Jira.
Variables (jql_query custom_field_id : string) (max_results_per_page : Z).

Local Abbreviation page_at start_at :=
  (fetch_page jira jql_query start_at max_results_per_page custom_field_id).
Local Abbreviation loop fuel total_issues all_issues start_at :=
  (fetch_loop jira fuel jql_query max_results_per_page custom_field_id
              total_issues all_issues start_at).

Lemma fetch_loop_complete (total_issues : Z) (pages : list (list Issue))
    (last_page all_issues : list Issue) (start_at : Z) (fuel : nat) :
  (∀ i page, (pages ++ [last_page]) !! i = Some page →
     page_at (start_at + Z.of_nat i * max_results_per_page) = Ok page) →
  (∀ i, (i < length pages)%nat →
     Z.of_nat (length (all_issues ++ concat (take (S i) pages))) < total_issues) →
  total_issues ≤ Z.of_nat (length (all_issues ++ concat pages ++ last_page)) →
  (length pages < fuel)%nat →
  loop fuel total_issues all_issues start_at
  = Some (all_issues ++ concat pages ++ last_page).
Proof.
  revert all_issues start_at fuel.
  induction pages as [|page pages IH]; intros all_issues start_at fuel Hok Hlt Hge Hfuel.
  - destruct fuel as [|fuel]; [simpl in Hfuel; lia|].
    pose proof (Hok 0%nat last_page eq_refl) as H0.
    simpl in H0. rewrite Z.add_0_r in H0.
    simpl. rewrite H0. simpl in Hge. by rewrite decide_True.
  - destruct fuel as [|fuel]; [lia|].
    pose proof (Hok 0%nat page eq_refl) as H0.
    simpl in H0. rewrite Z.add_0_r in H0.
    simpl. rewrite H0.
    pose proof (Hlt 0%nat ltac:(simpl; lia)) as Hlt0.
    simpl in Hlt0. rewrite app_nil_r in Hlt0.
    rewrite decide_False by lia.
    rewrite (IH (all_issues ++ page) (start_at + max_results_per_page) fuel).
    + by rewrite <- !app_assoc.
    + intros i pg Hi. rewrite <- (Hok (S i) pg Hi). f_equal. lia.
    + intros i Hi. specialize (Hlt (S i) ltac:(simpl; lia)).
      simpl in Hlt. by rewrite <- app_assoc.
    + simpl in Hge. rewrite <- !app_assoc in Hge. by rewrite <- !app_assoc.
    + simpl in Hfuel. lia.
Qed.

Lemma fetch_loop_sound (fuel : nat) (total_issues : Z)
    (all_issues : list Issue) (start_at : Z) (result : list Issue) :
  loop fuel total_issues all_issues start_at = Some result →
  ∃ pages,
    result = all_issues ++ concat pages
    ∧ (length pages ≤ fuel)%nat
    ∧ ∀ i page, pages !! i = Some page →
        page_at (start_at + Z.of_nat i * max_results_per_page) = Ok page.
Proof.
  revert all_issues start_at. induction fuel as [|fuel IH];
    intros all_issues start_at; [done|].
  simpl. destruct (page_at start_at) as [page|msg] eqn:Hpage.
  - case_decide as Hreach.
    + intros [= <-]. exists [page]. simpl. rewrite app_nil_r.
      split; [done|]. split; [lia|].
      intros [|i] pg Hi; simpl in Hi; [|done]. simplify_eq.
      by rewrite Z.add_0_r.
    + intros Hloop. destruct (IH _ _ Hloop) as (pages & -> & Hlen & Hok).
      exists (page :: pages). simpl. rewrite <- app_assoc.
      split; [done|]. split; [lia|].
      intros [|i] pg Hi; simpl in Hi.
      * simplify_eq. by rewrite Z.add_0_r.
      * rewrite <- (Hok i pg Hi). f_equal. lia.
  - intros [= <-]. exists []. simpl. rewrite app_nil_r.
    split; [done|]. split; [lia|]. intros i pg Hi. done.
Qed.

Lemma fetch_loop_empty_pages (fuel : nat) (total_issues : Z) (start_at : Z) :
  (∀ s, page_at s = Ok []) → 0 < total_issues →
  loop fuel total_issues [] start_at = None.
Proof.
  intros Hempty Htotal. revert start_at.
  induction fuel as [|fuel IH]; intros start_at; [done|].
  simpl. rewrite Hempty. simpl. rewrite decide_False by (simpl; lia).
  apply IH.
Qed.

Lemma exc_map_raise {A B : Type} (f : A → Exc B) (l : list A) (a : A)
    (msg : string) :
  a ∈ l → f a = Raise msg → ∃ msg', exc_map f l = Raise msg'.
Proof.
  intros Hin Hf. induction l as [|x l IH]; [by apply elem_of_nil in Hin|].
  simpl. apply elem_of_cons in Hin as [<-|Hin].
  - rewrite Hf. simpl. eauto.
  - destruct (f x); simpl; [|eauto].
    destruct (IH Hin) as [msg' ->]. simpl. eauto.
Qed.
End FetcherMore.

(** When every page arrives, the fetch returns the tickets of all pages up
    to and including the first one with which the accumulated count reaches
    the total reported by the count query; one round of the loop per page is
    enough. *)
Theorem fetch_returns_all_pages (jira : Jira) (jql_query : string)
    (max_results_per_page : Z) (custom_field_id : string) (fuel : nat)
    (total_issues : Z) (pages : list (list Issue)) (last_page : list Issue) :
  enhanced_search_total jira jql_query = Ok total_issues →
  (∀ i page, (pages ++ [last_page]) !! i = Some page →
     fetch_page jira jql_query (Z.of_nat i * max_results_per_page)
                max_results_per_page custom_field_id = Ok page) →
  (∀ i, (i < length pages)%nat →
     Z.of_nat (length (concat (take (S i) pages))) < total_issues) →
  total_issues ≤ Z.of_nat (length (concat pages ++ last_page)) →
  (length pages < fuel)%nat →
  get_issues_by_jql jira fuel jql_query max_results_per_page custom_field_id
  = Some (Ok (concat pages ++ last_page)).
Proof.
  intros Hcount Hok Hlt Hge Hfuel. unfold get_issues_by_jql. rewrite Hcount.
  by rewrite (fetch_loop_complete jira jql_query custom_field_id
                max_results_per_page total_issues pages last_page [] 0 fuel).
Qed.

Lemma fetch_returns_all_pages_witness :
  get_issues_by_jql jira_complete 2 "project = CN" 2 "customfield_10476"
  = Some (Ok [issue_done; issue_open; issue_malformed]).
Proof.
  apply (fetch_returns_all_pages jira_complete "project = CN" 2
           "customfield_10476" 2 3 [[issue_done; issue_open]] [issue_malformed]).
  - reflexivity.
  - intros [|[|i]] page Hi; simpl in Hi; [| |done]; by injection Hi as <-.
  - intros i Hi. simpl in Hi. assert (i = 0%nat) as -> by lia. simpl. lia.
  - simpl. lia.
  - simpl. lia.
Defined.

(** Whatever the service does, what the fetch returns is the concatenation
    of pages that were fetched successfully, in order and without gaps from
    the first page on: [start_at] advances by the page size. *)
Theorem fetch_result_is_run_of_pages (jira : Jira) (jql_query : string)
    (max_results_per_page : Z) (custom_field_id : string) (fuel : nat)
    (result : list Issue) :
  get_issues_by_jql jira fuel jql_query max_results_per_page custom_field_id
  = Some (Ok result) →
  ∃ pages,
    result = concat pages
    ∧ (length pages ≤ fuel)%nat
    ∧ ∀ i page, pages !! i = Some page →
        fetch_page jira jql_query (Z.of_nat i * max_results_per_page)
                   max_results_per_page custom_field_id = Ok page.
Proof.
  unfold get_issues_by_jql.
  destruct (enhanced_search_total jira jql_query) as [total|msg].
  - destruct (fetch_loop _ _ _ _ _ _ _ _) as [l|] eqn:Hloop; simpl; [|done].
    intros [= <-].
    apply fetch_loop_sound in Hloop as (pages & -> & Hlen & Hok).
    exists pages. split; [done|]. split; [done|].
    intros i page Hi. by rewrite <- (Hok i page Hi).
  - intros [= <-]. exists []. split; [done|]. split; [simpl; lia|]. done.
Qed.

Lemma fetch_result_is_run_of_pages_witness :
  ∃ pages,
    [issue_done; issue_malformed] = concat pages
    ∧ (length pages ≤ 2)%nat
    ∧ ∀ i page, pages !! i = Some page →
        fetch_page jira_sample "project = CN" (Z.of_nat i * 2) 2
                   "customfield_10476" = Ok page.
Proof.
  apply (fetch_result_is_run_of_pages jira_sample "project = CN" 2
           "customfield_10476" 2 [issue_done; issue_malformed]).
  reflexivity.
Defined.

(** The loop has no way out when the service reports a positive total and
    answers every page request with an empty page: no number of rounds
    makes the fetch return. *)
Theorem fetch_never_returns_on_empty_pages (jira : Jira) (jql_query : string)
    (max_results_per_page : Z) (custom_field_id : string) (total_issues : Z) :
  enhanced_search_total jira jql_query = Ok total_issues →
  0 < total_issues →
  (∀ start_at, fetch_page jira jql_query start_at max_results_per_page
                          custom_field_id = Ok []) →
  ∀ fuel,
    get_issues_by_jql jira fuel jql_query max_results_per_page custom_field_id
    = None.
Proof.
  intros Hcount Htotal Hempty fuel. unfold get_issues_by_jql. rewrite Hcount.
  by rewrite (fetch_loop_empty_pages jira jql_query custom_field_id
                max_results_per_page fuel total_issues 0).
Qed.

Lemma fetch_never_returns_on_empty_pages_witness :
  get_issues_by_jql jira_empty_pages 1000 "project = CN" 2 "customfield_10476"
  = None.
Proof.
  apply (fetch_never_returns_on_empty_pages jira_empty_pages "project = CN" 2
           "customfield_10476" 3).
  - reflexivity.
  - lia.
  - intros start_at. reflexivity.
Defined.

(** The tickets of a page are fetched again one by one before any of them
    is kept: when one of these fetches fails the whole page is lost.  On the
    first page that leaves the result empty. *)
Theorem failed_issue_fetch_loses_the_page (jira : Jira) (jql_query : string)
    (max_results_per_page : Z) (custom_field_id : string) (total_issues : Z)
    (raws : list string) (issue_key msg : string) :
  enhanced_search_total jira jql_query = Ok total_issues →
  search jira jql_query 0 max_results_per_page
         (String.append "summary,status,"
            (String.append custom_field_id ",created")) = Ok raws →
  issue_key ∈ raws → jira_issue jira issue_key = Raise msg →
  (∃ msg', fetch_page jira jql_query 0 max_results_per_page custom_field_id
           = Raise msg')
  ∧ ∀ fuel,
      get_issues_by_jql jira (S fuel) jql_query max_results_per_page
                        custom_field_id
      = Some (Ok []).
Proof.
  intros Hcount Hsearch Hin Hfail.
  assert (∃ msg', fetch_page jira jql_query 0 max_results_per_page
                             custom_field_id = Raise msg') as [msg' Hpage].
  { unfold fetch_page. rewrite Hsearch. simpl.
    by eapply exc_map_raise. }
  split; [eauto|]. intros fuel. unfold get_issues_by_jql. rewrite Hcount.
  simpl. by rewrite Hpage.
Qed.

Lemma failed_issue_fetch_loses_the_page_witness :
  get_issues_by_jql jira_missing_issue 1 "project = CN" 2 "customfield_10476"
  = Some (Ok []).
Proof.
  apply (failed_issue_fetch_loses_the_page jira_missing_issue "project = CN" 2
           "customfield_10476" 2 ["CN-1"; "CN-9"] "CN-9" "404 Not Found").
  - reflexivity.
  - reflexivity.
  - right. left.
  - reflexivity.
Defined.

(** * Further properties of the batch *)

Lemma dict_set_elem {V : Type} (k : string) (v : V) (d : list (string * V))
    (e : string * V) :
  e ∈ dict_set k v d → e = (k, v) ∨ e ∈ d.
Proof.
  induction d as [|[k0 v0] d IH]; simpl.
  - intros H. apply list_elem_of_singleton in H. by left.
  - case_decide; rewrite !elem_of_cons; [tauto|].
    intros [?|Hin]; [tauto|]. destruct (IH Hin); tauto.
Qed.

Lemma dict_set_length {V : Type} (k : string) (v : V) (d : list (string * V)) :
  (length (dict_set k v d) ≤ S (length d))%nat.
Proof.
  induction d as [|[k0 v0] d IH]; simpl; [lia|]. case_decide; simpl; lia.
Qed.

Section BatchMore.
Variable strptime : string → Exc Z.
Variable clock : nat → Z.
Variables custom_field_id field_name : string.

Local Abbreviation process := (process_issue strptime custom_field_id field_name).
Local Abbreviation loop := (analyze_loop strptime clock custom_field_id field_name).

Lemma analyze_loop_entries (issues : list Issue) (i : nat)
    (results : list (string * IssueData)) (k : string) (data : IssueData) :
  (k, data) ∈ loop i issues results →
  (k, data) ∈ results
  ∨ ∃ j issue, issues !! j = Some issue ∧ key issue = k
               ∧ process (clock (i + j)) issue = Ok data.
Proof.
  revert i results. induction issues as [|x issues IH]; intros i results; [by left|].
  simpl. destruct (process (clock i) x) as [d|msg] eqn:Hp; intros Hin;
    destruct (IH _ _ Hin) as [Hres|(j & issue & Hj & Hk & Hd)].
  - apply dict_set_elem in Hres as [[= -> ->]|Hres]; [|by left].
    right. exists 0%nat, x. by rewrite Nat.add_0_r.
  - right. exists (S j), issue.
    by replace (i + S j)%nat with (S i + j)%nat by lia.
  - by left.
  - right. exists (S j), issue.
    by replace (i + S j)%nat with (S i + j)%nat by lia.
Qed.

Lemma analyze_loop_length (issues : list Issue) (i : nat)
    (results : list (string * IssueData)) :
  (length (loop i issues results) ≤ length results + length issues)%nat.
Proof.
  revert i results. induction issues as [|x issues IH]; intros i results;
    simpl; [lia|].
  destruct (process (clock i) x) as [d|msg].
  - specialize (IH (S i) (dict_set (key x) d results)).
    pose proof (dict_set_length (key x) d results). lia.
  - specialize (IH (S i) results). lia.
Qed.

Lemma analyze_loop_app (l1 l2 : list Issue) (i : nat)
    (results : list (string * IssueData)) :
  loop i (l1 ++ l2) results = loop (i + length l1) l2 (loop i l1 results).
Proof.
  revert i results. induction l1 as [|x l1 IH]; intros i results; simpl.
  - by rewrite Nat.add_0_r.
  - replace (i + S (length l1))%nat with (S i + length l1)%nat by lia.
    destruct (process (clock i) x); apply IH.
Qed.

Lemma analyze_loop_failing (k : string) (issues : list Issue) (i : nat)
    (results : list (string * IssueData)) :
  (∀ j issue, issues !! j = Some issue → key issue = k →
     ∃ msg, process (clock (i + j)) issue = Raise msg) →
  dict_get k (loop i issues results) = dict_get k results.
Proof.
  revert i results. induction issues as [|x issues IH]; intros i results Hfail;
    [done|].
  simpl.
  assert (∀ j issue, issues !! j = Some issue → key issue = k →
            ∃ msg, process (clock (S i + j)) issue = Raise msg) as Hrest.
  { intros j issue Hj Hk.
    replace (S i + j)%nat with (i + S j)%nat by lia. by apply Hfail. }
  destruct (process (clock i) x) as [d|msg] eqn:Hp; rewrite IH by done; [|done].
  apply dict_get_set_ne. intros Hk.
  destruct (Hfail 0%nat x eq_refl Hk) as [msg Hraise].
  rewrite Nat.add_0_r in Hraise. congruence.
Qed.

(** The result of a batch is a proper dictionary with no more entries than
    tickets fetched, and every entry is what processing a fetched ticket
    with that key gave: the duration map of that ticket, the value of its
    custom field and the field name the batch was given. *)
Theorem batch_results_come_from_fetched_tickets (jira : Jira) (fuel : nat)
    (jql_query : string) (max_results_per_page : Z) (issues : list Issue)
    (results : list (string * IssueData)) :
  get_issues_by_jql jira fuel jql_query max_results_per_page custom_field_id
  = Some (Ok issues) →
  analyze_multiple_issues strptime clock custom_field_id field_name jira fuel
                          jql_query max_results_per_page = Some results →
  NoDup results.*1
  ∧ (length results ≤ length issues)%nat
  ∧ ∀ k data, (k, data) ∈ results →
      ∃ j issue,
        issues !! j = Some issue ∧ key issue = k
        ∧ analyze_issue strptime (clock (S j)) issue = Ok (durations data)
        ∧ grouping_field_value data
          = getattr_custom (fields issue) custom_field_id
        ∧ grouping_field_name data = field_name.
Proof.
  intros Hfetch. unfold analyze_multiple_issues. rewrite Hfetch. simpl.
  intros [= <-]. split; [|split].
  - apply analyze_loop_NoDup. constructor.
  - pose proof (analyze_loop_length issues 1 []) as H. simpl in H. lia.
  - intros k data Hin.
    apply analyze_loop_entries in Hin as [Hin|(j & issue & Hj & Hk & Hp)];
      [by apply elem_of_nil in Hin|].
    exists j, issue. split; [done|]. split; [done|].
    simpl in Hp. unfold process_issue in Hp. unfold analyze_issue.
    destruct (_get_status_changes strptime issue) as [l|msg]; simpl in *; [|done].
    by injection Hp as <-.
Qed.

(** When a key is fetched more than once, its entry holds the data of the
    last ticket with that key whose processing succeeded. *)
Theorem last_successful_ticket_wins (jira : Jira) (fuel : nat)
    (jql_query : string) (max_results_per_page : Z)
    (before after : list Issue) (issue : Issue) (data : IssueData) :
  get_issues_by_jql jira fuel jql_query max_results_per_page custom_field_id
  = Some (Ok (before ++ issue :: after)) →
  process (clock (S (length before))) issue = Ok data →
  (∀ j other, after !! j = Some other → key other = key issue →
     ∃ msg, process (clock (S (length before) + S j)) other = Raise msg) →
  ∃ results,
    analyze_multiple_issues strptime clock custom_field_id field_name jira fuel
                            jql_query max_results_per_page = Some results
    ∧ dict_get (key issue) results = Some data.
Proof.
  intros Hfetch Hok Hafter. unfold analyze_multiple_issues. rewrite Hfetch.
  simpl. eexists. split; [done|].
  rewrite analyze_loop_app. simpl. rewrite Hok.
  rewrite analyze_loop_failing.
  - apply dict_get_set_eq.
  - intros j other Hj Hk.
    replace (S (S (length before)) + j)%nat
      with (S (length before) + S j)%nat by lia.
    by apply Hafter.
Qed.
End BatchMore.

Lemma batch_results_come_from_fetched_tickets_witness :
  ∃ results,
    analyze_multiple_issues strptime_sample (λ _, t0 + 100 * hour)
      "customfield_10476" "Idea Category" jira_sample 2 "project = CN" 2
    = Some results
    ∧ NoDup results.*1 ∧ (length results ≤ 2)%nat.
Proof.
  eexists. split; [reflexivity|].
  destruct (batch_results_come_from_fetched_tickets strptime_sample
              (λ _, t0 + 100 * hour) "customfield_10476" "Idea Category"
              jira_sample 2 "project = CN" 2 [issue_done; issue_malformed]
              _ eq_refl eq_refl) as (Hnd & Hlen & _).
  split; [exact Hnd|exact Hlen].
Defined.

Lemma last_successful_ticket_wins_witness :
  ∃ results,
    analyze_multiple_issues strptime_sample clock_sample "customfield_10476"
      "Idea Category" jira_duplicates 1 "project = CN" 2 = Some results
    ∧ dict_get "CN-2" results
      = Some (data_of issue_open
                (_calculate_status_durations (clock_sample 2)
                   [mkChange "New" "In Progress" (t0 + 5 * hour)])).
Proof.
  apply (last_successful_ticket_wins strptime_sample clock_sample
           "customfield_10476" "Idea Category" jira_duplicates 1 "project = CN" 2
           [issue_open] [] issue_open).
  - reflexivity.
  - reflexivity.
  - intros j other Hj. done.
Defined.

(** * Further properties of the aggregation *)

Lemma Qc_sum_map_to_list (d : gmap string Qc) :
  Qc_sum (map_to_list d).*2 = sum_durations d.
Proof.
  unfold sum_durations. rewrite map_fold_foldr.
  induction (map_to_list d) as [|[k h] l IH]; [done|].
  simpl. by rewrite <- IH.
Qed.

(** The inner loop: the hours of the ticket are added up in [issue_total];
    the totals of the buckets stay as they are; and the bucket of the ticket
    exists afterwards when the ticket has an entry. *)
Lemma fold_add_status_totals (c : string) (es : list (string * Qc)) ag cs tot :
  let r := foldl (add_status c) (ag, cs, tot) es in
  r.2 = (tot + Qc_sum es.*2)%Qc
  ∧ (∀ c', total_hours (getitem_stats r.1.2 c')
           = total_hours (getitem_stats cs c'))
  ∧ (∀ c', is_Some (r.1.2 !! c') ↔ is_Some (cs !! c') ∨ (c' = c ∧ es ≠ [])).
Proof.
  revert ag cs tot. induction es as [|[s h] es IH]; intros ag cs tot.
  - simpl. split; [ring|]. split; [done|].
    intros c'. split; [auto|]. intros [?|[_ ?]]; done.
  - cbn [foldl add_status].
    specialize (IH
      (<[s := mkAgg (agg_total_hours (getitem_agg ag s) + h)%Qc
                    (S (agg_count (getitem_agg ag s)))]> ag)
      (<[c := mkStats (total_hours (getitem_stats cs c))
                      (count (getitem_stats cs c))
                      (issues (getitem_stats cs c))
                      (accrue s h (status_totals (getitem_stats cs c)))]> cs)
      (tot + h)%Qc).
    cbv zeta in IH. destruct IH as (IHtot & IHc & IHdom).
    cbv zeta. split; [|split].
    + rewrite IHtot.
      change (Qc_sum ((s, h) :: es).*2) with (h + Qc_sum es.*2)%Qc. ring.
    + intros c'. rewrite IHc. destruct (decide (c = c')) as [->|Hne].
      * by rewrite getitem_stats_insert_eq.
      * by rewrite getitem_stats_insert_ne.
    + intros c'. rewrite IHdom. destruct (decide (c = c')) as [->|Hne].
      * rewrite lookup_insert_eq. split; [|eauto]. intros _. by right.
      * rewrite lookup_insert_ne by done. split.
        -- intros [?|[? _]]; [by left|congruence].
        -- intros [?|[? _]]; [by left|congruence].
Qed.

Lemma fold_add_status_status_totals (c : string) (es : list (string * Qc))
    ag cs tot (c' s : string) :
  NoDup es.*1 →
  status_totals (getitem_stats (foldl (add_status c) (ag, cs, tot) es).1.2 c') !! s
  = if decide (c' = c) then
      match (list_to_map es : gmap string Qc) !! s with
      | Some h => Some (default 0 (status_totals (getitem_stats cs c) !! s) + h)%Qc
      | None => status_totals (getitem_stats cs c) !! s
      end
    else status_totals (getitem_stats cs c') !! s.
Proof.
  revert ag cs tot. induction es as [|[s0 h0] es IH]; intros ag cs tot Hnd.
  - simpl. by case_decide; subst.
  - simpl in Hnd. apply NoDup_cons in Hnd as [Hs0 Hnd].
    cbn [foldl add_status]. rewrite IH by done.
    assert ((list_to_map es : gmap string Qc) !! s0 = None) as Hnone
      by by apply not_elem_of_list_to_map_1.
    case_decide as Hc.
    + subst c'. rewrite getitem_stats_insert_eq. simpl.
      destruct (decide (s0 = s)) as [->|Hne].
      * by rewrite Hnone, lookup_insert_eq, accrue_lookup_eq.
      * rewrite (lookup_insert_ne _ s0 s) by done.
        by rewrite accrue_lookup_ne by done.
    + by rewrite getitem_stats_insert_ne by done.
Qed.

Lemma add_issue_totals (acc : AggState) (k : string) (d : IssueData) :
  let acc' := add_issue acc (k, d) in
  grand_total_hours acc'
  = (grand_total_hours acc + sum_durations (durations d))%Qc
  ∧ (∀ c, total_hours (getitem_stats (category_stats acc') c)
          = (total_hours (getitem_stats (category_stats acc) c)
             + if decide (category_of d = c)
               then sum_durations (durations d) else 0)%Qc)
  ∧ (∀ c, is_Some (category_stats acc' !! c)
          ↔ is_Some (category_stats acc !! c) ∨ c = category_of d).
Proof.
  unfold add_issue.
  pose proof (fold_add_status_totals (category_of d) (map_to_list (durations d))
    (aggregated acc) (category_stats acc) 0%Qc) as H.
  destruct (foldl _ _ _) as [[ag' cs'] tot']. cbv zeta in H. simpl in H.
  destruct H as (Htot & Hc & Hdom).
  rewrite Qc_sum_map_to_list, Qcplus_0_l in Htot. subst tot'.
  cbv zeta. simpl. split; [done|]. split.
  - intros c. rewrite <- Hc. destruct (decide (category_of d = c)) as [<-|Hne].
    + by rewrite getitem_stats_insert_eq.
    + rewrite getitem_stats_insert_ne by done. ring.
  - intros c. destruct (decide (category_of d = c)) as [<-|Hne].
    + rewrite lookup_insert_eq. split; [auto|eauto].
    + rewrite lookup_insert_ne by done. rewrite Hdom. split.
      * intros [?|[? _]]; [by left|congruence].
      * intros [?|?]; [by left|congruence].
Qed.

Lemma add_issue_status_totals (acc : AggState) (k : string) (d : IssueData)
    (c s : string) :
  status_totals (getitem_stats (category_stats (add_issue acc (k, d))) c) !! s
  = match (if decide (c = category_of d) then durations d !! s else None) with
    | Some h =>
        Some (default 0 (status_totals (getitem_stats (category_stats acc) c) !! s)
              + h)%Qc
    | None => status_totals (getitem_stats (category_stats acc) c) !! s
    end.
Proof.
  unfold add_issue.
  pose proof (fold_add_status_status_totals (category_of d)
    (map_to_list (durations d)) (aggregated acc) (category_stats acc) 0%Qc c s
    (NoDup_fst_map_to_list _)) as H.
  destruct (foldl _ _ _) as [[ag' cs'] tot']. simpl in H.
  rewrite list_to_map_to_list in H. simpl.
  destruct (decide (c = category_of d)) as [->|Hne].
  - by rewrite getitem_stats_insert_eq.
  - by rewrite getitem_stats_insert_ne.
Qed.

Lemma tickets_in_category_cons (c k : string) (d : IssueData)
    (results : list (string * IssueData)) :
  tickets_in_category c ((k, d) :: results)
  = (if decide (category_of d = c) then [(k, d)] else [])
    ++ tickets_in_category c results.
Proof.
  unfold tickets_in_category. rewrite filter_cons. simpl. by case_decide.
Qed.

Lemma fold_add_issue_totals (results : list (string * IssueData)) (acc : AggState) :
  let acc' := foldl add_issue acc results in
  grand_total_hours acc' = (grand_total_hours acc + tickets_total results)%Qc
  ∧ (∀ c, total_hours (getitem_stats (category_stats acc') c)
          = (total_hours (getitem_stats (category_stats acc) c)
             + tickets_total (tickets_in_category c results))%Qc)
  ∧ (∀ c, is_Some (category_stats acc' !! c)
          ↔ is_Some (category_stats acc !! c)
            ∨ tickets_in_category c results ≠ []).
Proof.
  revert acc. induction results as [|[k d] results IH]; intros acc.
  - cbv zeta. simpl. split; [unfold tickets_total; simpl; ring|]. split.
    + intros c. unfold tickets_total. simpl. ring.
    + intros c. split; [auto|]. intros [?|?]; done.
  - destruct (IH (add_issue acc (k, d))) as (IHg & IHc & IHdom).
    destruct (add_issue_totals acc k d) as (Hg & Hc & Hdom).
    change (foldl add_issue acc ((k, d) :: results))
      with (foldl add_issue (add_issue acc (k, d)) results).
    cbv zeta.
    assert (tickets_total ((k, d) :: results)
            = (sum_durations (durations d) + tickets_total results)%Qc) as Hcons
      by done.
    split; [|split].
    + rewrite IHg, Hg, Hcons. ring.
    + intros c. rewrite IHc, Hc, tickets_in_category_cons.
      case_decide; simpl.
      * change (tickets_total ((k, d) :: tickets_in_category c results))
          with (sum_durations (durations d)
                + tickets_total (tickets_in_category c results))%Qc.
        ring.
      * ring.
    + intros c. rewrite IHdom, Hdom, tickets_in_category_cons.
      case_decide as Hcat; simpl.
      * split; [intros _; by right|]. intros _. left. by right.
      * split.
        -- intros [[?|?]|?]; [by left|congruence|by right].
        -- intros [?|?]; [left; by left|by right].
Qed.

Lemma fold_add_issue_status_totals (results : list (string * IssueData))
    (acc : AggState) (c s : string) :
  status_totals (getitem_stats (category_stats (foldl add_issue acc results)) c) !! s
  = if decide (tickets_with_status s (tickets_in_category c results) = [])
    then status_totals (getitem_stats (category_stats acc) c) !! s
    else Some (default 0 (status_totals (getitem_stats (category_stats acc) c) !! s)
               + status_total s (tickets_in_category c results))%Qc.
Proof.
  revert acc. induction results as [|[k d] results IH]; intros acc; [done|].
  change (foldl add_issue acc ((k, d) :: results))
    with (foldl add_issue (add_issue acc (k, d)) results).
  rewrite IH, add_issue_status_totals, tickets_in_category_cons.
  assert (∀ l, tickets_with_status s l = [] → status_total s l = 0%Qc) as Hzero.
  { clear. intros l Hl. induction l as [|[k' d'] l IH]; [done|].
    rewrite tickets_with_status_cons in Hl. rewrite status_total_cons.
    case_decide as Hs; [done|]. rewrite IH by done.
    destruct (durations d' !! s); [destruct Hs; eauto|simpl; ring]. }
  destruct (decide (c = category_of d)) as [->|Hne].
  - rewrite (decide_True (P := category_of d = category_of d)) by done.
    cbn [app].
    rewrite tickets_with_status_cons, status_total_cons.
    destruct (durations d !! s) as [h|] eqn:Hd; simpl.
    + case_decide as Hrest.
      * rewrite (Hzero _ Hrest). f_equal. ring.
      * f_equal. ring.
    + case_decide as Hrest; [done|]. f_equal. ring.
  - by rewrite (decide_False (P := category_of d = c)) by done.
Qed.

(** The grand total is the sum, ticket by ticket, of the totals of the
    tickets, each the sum of the entries of the ticket's duration map; the
    grand average divides it by the number of tickets. *)
Theorem grand_total_is_sum_of_ticket_totals (results : list (string * IssueData)) :
  grand_total_hours (aggregate results) = tickets_total results
  ∧ grand_average results
    = match results with
      | [] => 0%Qc
      | _ => (tickets_total results / Qc_of_Z (Z.of_nat (length results)))%Qc
      end.
Proof.
  destruct (fold_add_issue_totals results (mkState ∅ ∅ 0%Qc)) as (Hg & _ & _).
  cbv zeta in Hg. simpl in Hg. fold (aggregate results) in Hg.
  assert (grand_total_hours (aggregate results) = tickets_total results) as Hgrand
    by (rewrite Hg; ring).
  split; [done|].
  unfold grand_average. destruct results; [done|]. by rewrite Hgrand.
Qed.

(** A category has a bucket exactly when some ticket is in it.  The bucket
    then counts at least one ticket, so its time to market is always its
    total divided by its count; and its total is the sum, ticket by ticket,
    of the totals of its tickets. *)
Theorem bucket_totals (results : list (string * IssueData)) (category : string) :
  (is_Some (category_stats (aggregate results) !! category)
   ↔ tickets_in_category category results ≠ [])
  ∧ ∀ stats,
      category_stats (aggregate results) !! category = Some stats →
      (0 < count stats)%nat
      ∧ count stats = length (tickets_in_category category results)
      ∧ total_hours stats = tickets_total (tickets_in_category category results)
      ∧ time_to_market stats
        = (total_hours stats / Qc_of_Z (Z.of_nat (count stats)))%Qc.
Proof.
  destruct (fold_add_issue_totals results (mkState ∅ ∅ 0%Qc))
    as (_ & Hc & Hdom).
  cbv zeta in Hc, Hdom. simpl in Hc, Hdom.
  fold (aggregate results) in Hc, Hdom.
  assert (is_Some (category_stats (aggregate results) !! category)
          ↔ tickets_in_category category results ≠ []) as Hexists.
  { rewrite Hdom, lookup_empty. split; [|auto]. intros [[? ?]|?]; done. }
  split; [done|]. intros stats Hst.
  destruct (aggregate_stats results) as [_ Hcount].
  destruct (Hcount category) as [Hcnt _].
  rewrite (getitem_stats_Some _ _ _ Hst) in Hcnt.
  assert (count stats = length (tickets_in_category category results)) as Hlen.
  { rewrite Hcnt. unfold keys_in_category, tickets_in_category.
    by rewrite length_fmap. }
  assert (0 < count stats)%nat as Hpos.
  { rewrite Hlen. apply proj1 in Hexists.
    destruct (tickets_in_category category results); [|simpl; lia].
    by destruct Hexists. }
  split; [done|]. split; [done|]. split.
  - specialize (Hc category). rewrite (getitem_stats_Some _ _ _ Hst) in Hc.
    rewrite Hc. unfold getitem_stats. rewrite lookup_empty. simpl. ring.
  - unfold time_to_market. by rewrite decide_True.
Qed.

(** The status totals of a bucket: a status has an entry exactly when the
    duration map of some ticket of the category has one, and the entry is
    the sum of the hours of these tickets in that status. *)
Theorem bucket_status_totals (results : list (string * IssueData))
    (category status : string) (stats : CategoryStats) :
  category_stats (aggregate results) !! category = Some stats →
  status_totals stats !! status
  = if decide (tickets_with_status status
                 (tickets_in_category category results) = [])
    then None
    else Some (status_total status (tickets_in_category category results)).
Proof.
  intros Hst.
  pose proof (fold_add_issue_status_totals results (mkState ∅ ∅ 0%Qc)
                category status) as H.
  fold (aggregate results) in H.
  rewrite (getitem_stats_Some _ _ _ Hst) in H. rewrite H. simpl.
  unfold getitem_stats. rewrite lookup_empty. simpl. rewrite lookup_empty. simpl.
  case_decide; [done|]. f_equal. ring.
Qed.

Lemma sample_bucket_exists :
  ∃ stats, category_stats (aggregate results_sample) !! "Growth" = Some stats.
Proof.
  destruct (fold_add_issue_totals results_sample (mkState ∅ ∅ 0%Qc))
    as (_ & _ & Hdom).
  cbv zeta in Hdom. fold (aggregate results_sample) in Hdom.
  apply Hdom. right. done.
Qed.

Lemma bucket_totals_witness :
  ∃ stats,
    category_stats (aggregate results_sample) !! "Growth" = Some stats
    ∧ count stats = 1%nat.
Proof.
  destruct sample_bucket_exists as [stats Hst]. exists stats. split; [done|].
  exact (proj1 (proj2 (proj2 (bucket_totals results_sample "Growth") stats Hst))).
Defined.

Lemma bucket_status_totals_witness :
  ∃ stats,
    category_stats (aggregate results_sample) !! "Growth" = Some stats
    ∧ status_totals stats !! "In Progress" = None.
Proof.
  destruct sample_bucket_exists as [stats Hst]. exists stats. split; [done|].
  exact (bucket_status_totals results_sample "Growth" "In Progress" stats Hst).
Defined.

(** * The totals of [print_status_durations] *)

Lemma Qc_sum_cons (x : Qc) (l : list Qc) : Qc_sum (x :: l) = (x + Qc_sum l)%Qc.
Proof. done. Qed.

Lemma Qc_sum_app (l1 l2 : list Qc) :
  Qc_sum (l1 ++ l2) = (Qc_sum l1 + Qc_sum l2)%Qc.
Proof.
  induction l1 as [|x l1 IH]; [simpl; ring|].
  rewrite <- app_comm_cons, !Qc_sum_cons, IH. ring.
Qed.

Lemma foldl_add_entries (d : gmap string Qc) (l : list string) (b : Qc) :
  foldl (λ total status, (total + default 0 (d !! status))%Qc) b l
  = (b + Qc_sum ((λ status, default 0%Qc (d !! status)) <$> l))%Qc.
Proof.
  revert b. induction l as [|s l IH]; intros b; [simpl; ring|].
  cbn [foldl]. rewrite IH, fmap_cons, Qc_sum_cons. ring.
Qed.

Lemma foldr_add_entries (d : gmap string Qc) (l : list string) (b : Qc) :
  foldr (λ status total, (total + default 0 (d !! status))%Qc) b l
  = (b + Qc_sum ((λ status, default 0%Qc (d !! status)) <$> l))%Qc.
Proof.
  induction l as [|s l IH]; [simpl; ring|].
  cbn [foldr]. rewrite IH, fmap_cons, Qc_sum_cons. ring.
Qed.

Lemma entries_insert_notin (l : list string) (d : gmap string Qc) (i : string)
    (x : Qc) :
  i ∉ l →
  (λ status, default 0%Qc (<[i := x]> d !! status)) <$> l
  = (λ status, default 0%Qc (d !! status)) <$> l.
Proof.
  intros Hi. apply list_fmap_ext. intros j s Hs.
  rewrite lookup_insert_ne; [done|]. intros Heq. apply Hi. rewrite Heq.
  by eapply list_elem_of_lookup_2.
Qed.

Lemma entries_insert_in (l : list string) (d : gmap string Qc) (i : string)
    (x : Qc) :
  NoDup l → i ∈ l → d !! i = None →
  Qc_sum ((λ status, default 0%Qc (<[i := x]> d !! status)) <$> l)
  = (x + Qc_sum ((λ status, default 0%Qc (d !! status)) <$> l))%Qc.
Proof.
  intros Hnd Hin Hnone. induction l as [|s l IH]; [by apply elem_of_nil in Hin|].
  apply NoDup_cons in Hnd as [Hs Hnd]. rewrite !fmap_cons, !Qc_sum_cons.
  destruct (decide (s = i)) as [->|Hne].
  - rewrite lookup_insert_eq, Hnone, entries_insert_notin by done. simpl. ring.
  - apply elem_of_cons in Hin as [?|Hin]; [congruence|].
    rewrite lookup_insert_ne by done. rewrite IH by done. ring.
Qed.

(** The entries of a map, looked up along a list without repetitions that
    has all its keys, add up to the sum of the map. *)
Lemma entries_sum (l : list string) (d : gmap string Qc) :
  NoDup l → (∀ k, is_Some (d !! k) → k ∈ l) →
  Qc_sum ((λ status, default 0%Qc (d !! status)) <$> l) = sum_durations d.
Proof.
  intros Hnd. induction d as [|i x d Hi IH] using map_ind; intros Hkeys.
  - rewrite sum_durations_empty. clear. induction l as [|s l IH]; [done|].
    rewrite fmap_cons, Qc_sum_cons, IH, lookup_empty. simpl. ring.
  - rewrite sum_durations_insert_fresh by done.
    rewrite entries_insert_in; [|done| |done].
    + rewrite IH; [done|]. intros k Hk. apply Hkeys.
      destruct (decide (i = k)) as [->|Hne].
      * rewrite lookup_insert_eq. eauto.
      * by rewrite lookup_insert_ne.
    + apply Hkeys. rewrite lookup_insert_eq. eauto.
Qed.

Lemma NoDup_EXPECTED_STATUSES : NoDup EXPECTED_STATUSES.
Proof. apply (bool_decide_unpack _). by vm_compute. Qed.

(** What [print_status_durations] prints last as the total is the sum of
    all entries of the duration map: the total over the expected statuses
    when there is no other status, the total including the unexpected ones
    otherwise.  With unexpected statuses the first total leaves their hours
    out. *)
Theorem printed_total_is_sum_of_durations (d : gmap string Qc) :
  total_including_unexpected d = sum_durations d
  ∧ (unexpected_statuses d = ∅ → expected_total d = sum_durations d)
  ∧ printed_totals d
    = (_format_time (expected_total d),
       if decide (unexpected_statuses d = ∅) then None
       else Some (_format_time (sum_durations d))).
Proof.
  assert (total_including_unexpected d = sum_durations d) as Htotal.
  { unfold total_including_unexpected, expected_total.
    rewrite foldl_add_entries, Qcplus_0_l.
    unfold set_fold, compose. rewrite foldr_add_entries.
    rewrite <- Qc_sum_app, <- fmap_app.
    apply entries_sum.
    - apply NoDup_app. split; [apply NoDup_EXPECTED_STATUSES|].
      split; [|apply NoDup_elements].
      intros s Hs Hu. apply elem_of_elements in Hu.
      unfold unexpected_statuses in Hu. apply elem_of_difference in Hu as [_ Hu].
      apply Hu. by apply elem_of_list_to_set.
    - intros k Hk. apply elem_of_app.
      destruct (decide (k ∈ EXPECTED_STATUSES)) as [?|Hnot]; [by left|].
      right. apply elem_of_elements. unfold unexpected_statuses.
      apply elem_of_difference. split; [by apply elem_of_dom|].
      by rewrite elem_of_list_to_set. }
  split; [done|]. split.
  - intros Hnone. rewrite <- Htotal. unfold total_including_unexpected.
    by rewrite Hnone, set_fold_empty.
  - unfold printed_totals. by rewrite Htotal.
Qed.

Lemma printed_total_is_sum_of_durations_witness :
  expected_total {[ "New Issues" := 0%Qc; "In Progress" := Qc_of_Z 5 ]}
  = sum_durations {[ "New Issues" := 0%Qc; "In Progress" := Qc_of_Z 5 ]}.
Proof.
  apply (printed_total_is_sum_of_durations
           {[ "New Issues" := 0%Qc; "In Progress" := Qc_of_Z 5 ]}).
  apply (bool_decide_unpack _). by vm_compute.
Defined.

(** * [_format_time] *)

Lemma Qfloor_bounds (q : Qc) :
  (Qc_of_Z (Qfloor q) ≤ q)%Qc ∧ (q < Qc_of_Z (Qfloor q + 1))%Qc.
Proof.
  split.
  - unfold Qcle, Qc_of_Z; simpl. apply Qfloor_le.
  - unfold Qclt, Qc_of_Z; simpl. apply Qlt_floor.
Qed.

Lemma Qc_of_Z_le (a b : Z) : a ≤ b → (Qc_of_Z a ≤ Qc_of_Z b)%Qc.
Proof. intros H. unfold Qcle, Qc_of_Z, Qle; simpl. lia. Qed.

Lemma Qc_of_Z_lt_inv (a b : Z) : (Qc_of_Z a < Qc_of_Z b)%Qc → a < b.
Proof. unfold Qclt, Qc_of_Z, Qlt; simpl. lia. Qed.

Lemma Qc_of_Z_1 : Qc_of_Z 1 = 1%Qc.
Proof. apply Qc_is_canon. reflexivity. Qed.

Lemma hours_as_days (hours : Qc) :
  hours = (hours / Qc_of_Z 24 * Qc_of_Z 24)%Qc.
Proof. field. discriminate. Qed.

(** [_format_time] shows hours alone below 24 hours (negative hours
    included); from 24 hours on it shows at least one day and a remainder
    of at least 0 and less than 24 hours, which together are the hours it
    was given. *)
Theorem format_time_cases (hours : Qc) :
  ((hours < Qc_of_Z 24)%Qc → _format_time hours = HoursOnly hours)
  ∧ ((Qc_of_Z 24 ≤ hours)%Qc →
     ∃ days remaining_hours,
       _format_time hours = DaysAndHours days remaining_hours
       ∧ 1 ≤ days
       ∧ (0 ≤ remaining_hours)%Qc ∧ (remaining_hours < Qc_of_Z 24)%Qc
       ∧ hours = (Qc_of_Z 24 * Qc_of_Z days + remaining_hours)%Qc).
Proof.
  unfold _format_time, remaining_hours_of, days_of.
  destruct (Qfloor_bounds (hours / Qc_of_Z 24)%Qc) as [Hlo Hhi].
  set (n := Qfloor (hours / Qc_of_Z 24)%Qc) in *.
  assert (0 ≤ Qc_of_Z 24)%Qc as H24 by done.
  assert (0 < Qc_of_Z 24)%Qc as H24' by done.
  pose proof (Qcmult_le_compat_r _ _ _ Hlo H24) as Hlo'.
  pose proof (Qcmult_lt_compat_r _ _ _ H24' Hhi) as Hhi'.
  rewrite <- hours_as_days in Hlo', Hhi'.
  split.
  - intros Hlt. rewrite decide_False; [done|]. intros Hn.
    apply (Qcle_not_lt _ _ Hlo'). eapply Qclt_le_trans; [exact Hlt|].
    pose proof (Qcmult_le_compat_r _ _ _ (Qc_of_Z_le 1 n ltac:(lia)) H24) as H1.
    by rewrite Qc_of_Z_1, Qcmult_1_l in H1.
  - intros Hge.
    assert (0 < n) as Hn.
    { assert (Qc_of_Z 1 < Qc_of_Z (n + 1))%Qc as H1.
      { destruct (Qclt_le_dec (Qc_of_Z 1) (Qc_of_Z (n + 1))) as [?|Hle]; [done|].
        exfalso. apply (Qcle_not_lt _ _ Hge).
        eapply Qclt_le_trans; [exact Hhi'|].
        pose proof (Qcmult_le_compat_r _ _ _ Hle H24) as H1.
        by rewrite Qc_of_Z_1, Qcmult_1_l in H1. }
      apply Qc_of_Z_lt_inv in H1. lia. }
    exists n, (hours - Qc_of_Z 24 * Qc_of_Z n)%Qc.
    rewrite decide_True by done. split; [done|]. split; [lia|].
    split; [|split].
    + apply Qcle_minus_iff in Hlo'.
      replace (hours - Qc_of_Z 24 * Qc_of_Z n)%Qc
        with (hours + - (Qc_of_Z n * Qc_of_Z 24))%Qc by ring.
      done.
    + apply Qclt_minus_iff in Hhi'. apply Qclt_minus_iff.
      rewrite Qc_of_Z_plus, Qc_of_Z_1 in Hhi'.
      replace (Qc_of_Z 24 + - (hours - Qc_of_Z 24 * Qc_of_Z n))%Qc
        with ((Qc_of_Z n + 1) * Qc_of_Z 24 + - hours)%Qc by ring.
      done.
    + ring.
Qed.

Lemma format_time_cases_witness :
  _format_time (Qc_of_Z 5) = HoursOnly (Qc_of_Z 5).
Proof.
  apply (format_time_cases (Qc_of_Z 5)). done.
Defined.

(** * [run_analysis] *)

(** [run_analysis] returns nothing, and does so without a request to the
    service, exactly when the mode is neither "impact" nor "idea_category";
    when it returns results, every entry carries the field name of the
    mode, "Impact" or "Idea Category". *)
Theorem run_analysis_modes (strptime : string → Exc Z) (clock : nat → Z)
    (jira : Jira) (fuel : nat) (jql_query grouping_mode : string)
    (max_results_per_page : Z) :
  (run_analysis strptime clock jira fuel jql_query grouping_mode
                max_results_per_page = Some None
   ↔ grouping_mode ≠ "impact" ∧ grouping_mode ≠ "idea_category")
  ∧ ∀ results,
      run_analysis strptime clock jira fuel jql_query grouping_mode
                   max_results_per_page = Some (Some results) →
      ∃ field_name,
        ((grouping_mode = "impact" ∧ field_name = "Impact")
         ∨ (grouping_mode = "idea_category" ∧ field_name = "Idea Category"))
        ∧ ∀ k data, (k, data) ∈ results → grouping_field_name data = field_name.
Proof.
  unfold run_analysis, GROUPING_OPTIONS.
  assert (∀ cf name results,
            analyze_multiple_issues strptime clock cf name jira fuel jql_query
                                    max_results_per_page = Some results →
            ∀ k data, (k, data) ∈ results → grouping_field_name data = name)
    as Hname.
  { intros cf name results Han k data Hin.
    unfold analyze_multiple_issues in Han.
    destruct (get_issues_by_jql jira fuel jql_query max_results_per_page cf)
      as [[issues|msg]|] eqn:Hget; simpl in Han; [| |done].
    - injection Han as <-.
      apply analyze_loop_entries in Hin as [Hin|(j & issue & _ & _ & Hp)];
        [by apply elem_of_nil in Hin|].
      unfold process_issue in Hp.
      destruct (_get_status_changes strptime issue); simpl in Hp; [|done].
      by injection Hp as <-.
    - injection Han as <-. by apply elem_of_nil in Hin. }
  repeat case_decide; subst; simpl.
  - split.
    + split; [|by intros [? _]].
      destruct (analyze_multiple_issues _ _ _ _ _ _ _ _); done.
    + intros results Hr. exists "Impact". split; [by left|].
      destruct (analyze_multiple_issues strptime clock "customfield_10068"
                  "Impact" jira fuel jql_query max_results_per_page)
        as [r|] eqn:Han; simpl in Hr; [|done].
      injection Hr as <-. by eapply Hname.
  - split.
    + split; [|by intros [_ ?]].
      destruct (analyze_multiple_issues _ _ _ _ _ _ _ _); done.
    + intros results Hr. exists "Idea Category". split; [by right|].
      destruct (analyze_multiple_issues strptime clock "customfield_10476"
                  "Idea Category" jira fuel jql_query max_results_per_page)
        as [r|] eqn:Han; simpl in Hr; [|done].
      injection Hr as <-. by eapply Hname.
  - split; [done|]. intros results Hr. done.
Qed.

Lemma run_analysis_modes_witness :
  run_analysis strptime_sample clock_sample jira_sample 0 "project = CN"
               "priority" 2 = Some None.
Proof.
  apply (run_analysis_modes strptime_sample clock_sample jira_sample 0
           "project = CN" "priority" 2).
  split; done.
Defined.

(** * The calculation and the time it accounts for, in any arithmetic *)

Section ArithmeticFacts.
Context {H : Type} (zero : H) (add : H → H → H) (hours_of : Z → H).

Local Abbreviation step :=
  (λ (d : gmap string H) (a : string * Z),
     accrue_with zero add a.1 (hours_of a.2) d).

Lemma replay_with_status (l : list StatusChange) s t (d : gmap string H) :
  (replay_with zero add hours_of l s t d).1.1 = default s (to_status <$> last l).
Proof.
  revert s t d. induction l as [|c l IH]; intros s t d; [done|].
  simpl. rewrite IH, last_cons. by destruct (last l).
Qed.

Lemma replay_with_time (l : list StatusChange) s t (d : gmap string H) :
  (replay_with zero add hours_of l s t d).1.2 = default t (timestamp <$> last l).
Proof.
  revert s t d. induction l as [|c l IH]; intros s t d; [done|].
  simpl. rewrite IH, last_cons. by destruct (last l).
Qed.

(** The map after the loop is the map before it with the hours of the
    accruals of the loop added, one after the other. *)
Lemma replay_with_accruals (l : list StatusChange) s t (d : gmap string H) :
  (replay_with zero add hours_of l s t d).2 = foldl step d (replay_accruals l s t).
Proof.
  revert s t d. induction l as [|c l IH]; intros s t d; [done|].
  simpl. by rewrite IH.
Qed.

Lemma calculate_with_accruals (now : Z) (l : list StatusChange) :
  calculate_with zero add hours_of now l = foldl step ∅ (accruals now l).
Proof.
  destruct l as [|first rest]; [done|].
  unfold calculate_with, accruals. rewrite foldl_app.
  pose proof (replay_with_status (first :: rest) "New Issues" (timestamp first) ∅)
    as Hs.
  pose proof (replay_with_time (first :: rest) "New Issues" (timestamp first) ∅)
    as Ht.
  pose proof (replay_with_accruals (first :: rest) "New Issues" (timestamp first) ∅)
    as Hd.
  destruct (replay_with zero add hours_of (first :: rest) "New Issues"
              (timestamp first) ∅) as [[s t] d].
  simpl in Hs, Ht, Hd. subst d.
  destruct (last (first :: rest)) as [final|] eqn:Hlast;
    [|by apply last_None in Hlast].
  simpl in Hs, Ht. subst s t. by case_decide.
Qed.

(** The analysis time enters the calculation in the last accrual only. *)
Lemma calculate_with_other_status (now later : Z) (l : list StatusChange)
    (final : StatusChange) (status : string) :
  last l = Some final → status ≠ to_status final →
  calculate_with zero add hours_of later l !! status
  = calculate_with zero add hours_of now l !! status.
Proof.
  intros Hlast Hne. destruct l as [|first rest]; [done|].
  unfold calculate_with.
  pose proof (replay_with_status (first :: rest) "New Issues" (timestamp first) ∅)
    as Hs.
  destruct (replay_with zero add hours_of (first :: rest) "New Issues"
              (timestamp first) ∅) as [[s t] d].
  simpl in Hs. rewrite Hlast in Hs. simpl in Hs. subst s.
  case_decide; [|done]. unfold accrue_with.
  by rewrite !lookup_insert_ne by done.
Qed.

Lemma calculate_with_done (now later : Z) (l : list StatusChange)
    (final : StatusChange) :
  last l = Some final → to_status final = "Done" →
  calculate_with zero add hours_of later l = calculate_with zero add hours_of now l.
Proof.
  intros Hlast Hdone. destruct l as [|first rest]; [done|].
  unfold calculate_with.
  pose proof (replay_with_status (first :: rest) "New Issues" (timestamp first) ∅)
    as Hs.
  destruct (replay_with zero add hours_of (first :: rest) "New Issues"
              (timestamp first) ∅) as [[s t] d].
  simpl in Hs. rewrite Hlast in Hs. simpl in Hs. subst s.
  by rewrite !decide_False by (intros ?; done).
Qed.

(** When the addition is associative and commutative with [zero] as its
    unit, the sum of a map grows by what is accrued. *)
Section ExactArithmetic.
Hypothesis add_assoc : ∀ x y z, add x (add y z) = add (add x y) z.
Hypothesis add_comm : ∀ x y, add x y = add y x.
Hypothesis add_zero : ∀ x, add zero x = x.
Hypothesis hours_of_zero : hours_of 0 = zero.
Hypothesis hours_of_add : ∀ a b, hours_of (a + b) = add (hours_of a) (hours_of b).

Lemma sum_with_insert_fresh (k : string) (x : H) (d : gmap string H) :
  d !! k = None → sum_with zero add (<[k := x]> d) = add (sum_with zero add d) x.
Proof.
  intros Hk. unfold sum_with.
  apply (map_fold_insert_L (λ _ h acc, add acc h)); [|done].
  intros j1 j2 z1 z2 y _ _ _.
  by rewrite <- !add_assoc, (add_comm z2 z1).
Qed.

Lemma sum_with_accrue (k : string) (x : H) (d : gmap string H) :
  sum_with zero add (accrue_with zero add k x d) = add (sum_with zero add d) x.
Proof.
  unfold accrue_with. destruct (d !! k) as [h|] eqn:Hk; simpl.
  - rewrite <- (insert_delete_eq d).
    rewrite sum_with_insert_fresh by apply lookup_delete_eq.
    rewrite <- (insert_delete_id d k h Hk) at 2.
    rewrite sum_with_insert_fresh by apply lookup_delete_eq.
    by rewrite add_assoc.
  - rewrite sum_with_insert_fresh by done. by rewrite add_zero.
Qed.

Lemma sum_with_accruals (a : list (string * Z)) (d : gmap string H) :
  sum_with zero add (foldl step d a)
  = add (sum_with zero add d) (hours_of (total_timedelta a)).
Proof.
  revert d. induction a as [|[s td] a IH]; intros d.
  - simpl. by rewrite hours_of_zero, add_comm, add_zero.
  - cbn [foldl]. rewrite IH, sum_with_accrue. cbn [total_timedelta foldr].
    fold (total_timedelta a). by rewrite hours_of_add, add_assoc.
Qed.
End ExactArithmetic.
End ArithmeticFacts.

(** ** The accruals *)

Lemma total_timedelta_app (a b : list (string * Z)) :
  total_timedelta (a ++ b) = total_timedelta a + total_timedelta b.
Proof.
  induction a as [|e a IH]; [done|].
  cbn [app total_timedelta foldr]. fold (total_timedelta (a ++ b)).
  fold (total_timedelta a). lia.
Qed.

(** The intervals of the loop are consecutive: they reach from the start
    time to the last change. *)
Lemma replay_accruals_total (l : list StatusChange) (s : string) (t : Z) :
  total_timedelta (replay_accruals l s t) = default t (timestamp <$> last l) - t.
Proof.
  revert s t. induction l as [|c l IH]; intros s t; [simpl; lia|].
  cbn [replay_accruals total_timedelta foldr].
  fold (total_timedelta (replay_accruals l (to_status c) (timestamp c))).
  rewrite IH, last_cons. destruct (last l); simpl; lia.
Qed.

Lemma accruals_total (now : Z) (l : list StatusChange) (first final : StatusChange) :
  head l = Some first → last l = Some final →
  total_timedelta (accruals now l) = accrual_end now final - timestamp first.
Proof.
  intros Hhead Hlast. destruct l as [|c l]; [done|].
  simpl in Hhead. simplify_eq. unfold accruals, accrual_end.
  rewrite total_timedelta_app, replay_accruals_total, Hlast. simpl.
  destruct (decide (to_status final = "Done")) as [Hdone|Hopen].
  - rewrite decide_False by (intros ?; done). simpl. lia.
  - rewrite decide_True by done. simpl. lia.
Qed.

Lemma accruals_head (now : Z) (l : list StatusChange) (first : StatusChange) :
  head l = Some first → head (accruals now l) = Some ("New Issues", 0).
Proof.
  intros Hhead. destruct l as [|c l]; [done|]. simpl in Hhead. simplify_eq.
  unfold accruals. cbn [replay_accruals app head]. by rewrite Z.sub_diag.
Qed.

(** The calculation in exact rationals is the calculation of the first
    part of this file. *)
Lemma calculate_with_exact (now : Z) (l : list StatusChange) :
  calculate_with 0%Qc Qcplus hours_exact now l = _calculate_status_durations now l.
Proof.
  assert (∀ l s t d, replay_with 0%Qc Qcplus hours_exact l s t d = replay l s t d)
    as Hreplay.
  { clear. induction l as [|c l IH]; intros s t d; [done|]. simpl. apply IH. }
  destruct l as [|first rest]; [done|].
  unfold calculate_with, _calculate_status_durations. by rewrite Hreplay.
Qed.

Lemma hours_exact_add (a b : Z) :
  hours_exact (a + b) = (hours_exact a + hours_exact b)%Qc.
Proof. unfold hours_exact. rewrite total_seconds_plus. field. discriminate. Qed.

Lemma hours_exact_zero : hours_exact 0 = 0%Qc.
Proof. apply Qc_is_canon. reflexivity. Qed.

Lemma replay_accruals_zip_end (now : Z) (l : list StatusChange) (s : string)
    (t : Z) (final : StatusChange) :
  last l = Some final →
  replay_accruals l s t
  ++ (if decide (to_status final ≠ "Done")
      then [(to_status final, now - timestamp final)] else [])
  = zip (s :: (to_status <$> l))
        (zip_with Z.sub
           ((timestamp <$> l)
            ++ (if decide (to_status final = "Done") then [] else [now]))
           (t :: (timestamp <$> l))).
Proof.
  revert s t. induction l as [|c l IH]; intros s t Hlast; [done|].
  destruct l as [|c' l].
  - simpl in Hlast. simplify_eq. simpl.
    destruct (decide (to_status final = "Done")) as [Hd|Hd].
    + by rewrite decide_False by (intros ?; done).
    + by rewrite decide_True by done.
  - rewrite last_cons_cons in Hlast.
    change (replay_accruals (c :: c' :: l) s t)
      with ((s, timestamp c - t)
              :: replay_accruals (c' :: l) (to_status c) (timestamp c)).
    rewrite <- app_comm_cons, (IH _ _ Hlast). done.
Qed.

(** The accruals, written out: the statuses are the initial status and the
    status every change leads to; the timedeltas are the differences of
    consecutive timestamps, the first change against itself, and [now]
    against the last change unless it leads to "Done". *)
Lemma accruals_zip (now : Z) (l : list StatusChange) (first final : StatusChange) :
  head l = Some first → last l = Some final →
  accruals now l
  = zip ("New Issues" :: (to_status <$> l))
        (zip_with Z.sub
           ((timestamp <$> l)
            ++ (if decide (to_status final = "Done") then [] else [now]))
           (timestamp first :: (timestamp <$> l))).
Proof.
  intros Hhead Hlast. destruct l as [|c l]; [done|].
  simpl in Hhead. simplify_eq. unfold accruals. rewrite Hlast.
  by apply replay_accruals_zip_end.
Qed.

Section AccrueAllFacts.
Context {H : Type} (zero : H) (add : H → H → H) (hours_of : Z → H).

(** An entry of the map after the accruals: the hours of the timedeltas of
    its status, added one after the other to what the entry was. *)
Lemma accrue_all_lookup (a : list (string * Z)) (d : gmap string H)
    (status : string) :
  accrue_all zero add hours_of a d !! status
  = match timedeltas_of status a with
    | [] => d !! status
    | tds => Some (foldl add (default zero (d !! status)) (hours_of <$> tds))
    end.
Proof.
  revert d. induction a as [|[s td] a IH]; intros d; [done|].
  change (accrue_all zero add hours_of ((s, td) :: a) d)
    with (accrue_all zero add hours_of a (accrue_with zero add s (hours_of td) d)).
  rewrite IH. unfold timedeltas_of. rewrite filter_cons. simpl.
  unfold accrue_with at 1 2. simpl.
  destruct (decide (s = status)) as [->|Hne].
  - rewrite lookup_insert_eq. simpl.
    by destruct (filter (λ e, e.1 = status) a).
  - by rewrite lookup_insert_ne by done.
Qed.
End AccrueAllFacts.

Lemma hours_exact_microseconds (td : Z) :
  (Qc_of_Z 3600000000 * hours_exact td)%Qc = Qc_of_Z td.
Proof.
  unfold hours_exact, total_seconds.
  assert (Qc_of_Z 3600000000 = (Qc_of_Z 1000000 * Qc_of_Z 3600)%Qc) as ->
    by (apply Qc_is_canon; reflexivity).
  field. split; discriminate.
Qed.

Lemma sum_with_exact (now : Z) (l : list StatusChange) (first final : StatusChange) :
  head l = Some first → last l = Some final →
  (Qc_of_Z 3600000000
   * sum_with 0%Qc Qcplus (calculate_with 0%Qc Qcplus hours_exact now l))%Qc
  = Qc_of_Z (accrual_end now final - timestamp first).
Proof.
  intros Hhead Hlast. rewrite calculate_with_accruals.
  rewrite (sum_with_accruals 0%Qc Qcplus hours_exact).
  - rewrite (accruals_total now l first final) by done.
    unfold sum_with. rewrite map_fold_empty, Qcplus_0_l.
    apply hours_exact_microseconds.
  - intros. ring.
  - intros. ring.
  - intros. ring.
  - apply hours_exact_zero.
  - apply hours_exact_add.
Qed.

(** * The sum of a duration map and the elapsed time *)

(** C1, as stated, fails in the arithmetic of the code.  A ticket enters New
    Issues at 00:00, In Progress at 00:06 and Done at 00:18.  Its map is
    {New Issues: 360 / 3600, In Progress: 720 / 3600} in binary64, which
    Python prints as 0.1 and 0.2; the elapsed hours between the first and
    the last transition are 1080 / 3600 in binary64, printed as 0.3; and
    the two values of the map, added to 0 in either order, give the next
    double above that, printed as 0.30000000000000004. *)
Lemma elapsed_hours_counterexample :
  ∃ d,
    _calculate_status_durations_binary64 (t0 + 100 * hour) rounding_changes = d
    ∧ d = {[ "New Issues" := hours_binary64 (6 * minute);
             "In Progress" := hours_binary64 (12 * minute) ]}
    ∧ hours_binary64 (6 * minute) = 0x1.999999999999ap-4%float
    ∧ hours_binary64 (12 * minute) = 0x1.999999999999ap-3%float
    ∧ hours_binary64 (t0 + 18 * minute - t0) = 0x1.3333333333333p-2%float
    ∧ sum_with PrimFloat.zero PrimFloat.add d = 0x1.3333333333334p-2%float
    ∧ PrimFloat.eqb (sum_with PrimFloat.zero PrimFloat.add d)
                    (hours_binary64 (t0 + 18 * minute - t0)) = false
    ∧ PrimFloat.eqb (PrimFloat.zero + hours_binary64 (6 * minute)
                     + hours_binary64 (12 * minute))%float
                    (hours_binary64 (t0 + 18 * minute - t0)) = false
    ∧ PrimFloat.eqb (PrimFloat.zero + hours_binary64 (12 * minute)
                     + hours_binary64 (6 * minute))%float
                    (hours_binary64 (t0 + 18 * minute - t0)) = false
    ∧ PrimFloat.ltb (hours_binary64 (t0 + 18 * minute - t0))
                    (sum_with PrimFloat.zero PrimFloat.add d) = true.
Proof.
  eexists. split; [reflexivity|].
  repeat split; vm_compute; reflexivity.
Qed.

(** C1, amended: for every non-empty sequence of status changes, in
    whatever arithmetic the hours are computed,
    - the calculation accrues, one after the other, the hours of these
      timedeltas: to "New Issues" the first change's timestamp minus itself,
      to the status every change leads to the next change's timestamp minus
      its own, and to the status the last change leads to, unless it is
      "Done", [now] minus the last timestamp;
    - these timedeltas add up, exactly, to the time from the first
      timestamp to the last one when the last change leads to "Done", and
      to [now] otherwise;
    - the map is the result of these accruals, so an entry is the hours of
      the timedeltas of its status added one after the other to zero;
    - where the addition is associative and commutative with zero as its
      unit and the hours of a sum are the sum of the hours, the values of
      the map add up to the hours of that elapsed time;
    - in exact rationals, 3600 * 10^6 times the sum of the values is the
      elapsed time in microseconds. *)
Theorem durations_account_for_elapsed_time {H : Type} (zero : H)
    (add : H → H → H) (hours_of : Z → H) (now : Z)
    (status_changes : list StatusChange) (first final : StatusChange) :
  head status_changes = Some first →
  last status_changes = Some final →
  accruals now status_changes
  = zip ("New Issues" :: (to_status <$> status_changes))
        (zip_with Z.sub
           ((timestamp <$> status_changes)
            ++ (if decide (to_status final = "Done") then [] else [now]))
           (timestamp first :: (timestamp <$> status_changes)))
  ∧ total_timedelta (accruals now status_changes)
    = accrual_end now final - timestamp first
  ∧ calculate_with zero add hours_of now status_changes
    = accrue_all zero add hours_of (accruals now status_changes) ∅
  ∧ (∀ status,
       calculate_with zero add hours_of now status_changes !! status
       = match timedeltas_of status (accruals now status_changes) with
         | [] => None
         | tds => Some (foldl add zero (hours_of <$> tds))
         end)
  ∧ ((∀ x y z, add x (add y z) = add (add x y) z) →
     (∀ x y, add x y = add y x) →
     (∀ x, add zero x = x) →
     hours_of 0 = zero →
     (∀ a b, hours_of (a + b) = add (hours_of a) (hours_of b)) →
     sum_with zero add (calculate_with zero add hours_of now status_changes)
     = hours_of (accrual_end now final - timestamp first))
  ∧ (Qc_of_Z 3600000000
     * sum_with 0%Qc Qcplus
         (calculate_with 0%Qc Qcplus hours_exact now status_changes))%Qc
    = Qc_of_Z (accrual_end now final - timestamp first).
Proof.
  intros Hhead Hlast.
  split; [by apply accruals_zip|].
  split; [by apply accruals_total|].
  split; [apply calculate_with_accruals|].
  split.
  { intros status. rewrite calculate_with_accruals.
    pose proof (accrue_all_lookup zero add hours_of
                  (accruals now status_changes) ∅ status) as Hlookup.
    rewrite lookup_empty in Hlookup. exact Hlookup. }
  split; [|by apply sum_with_exact].
  intros Hassoc Hcomm Hzero Hh0 Hhadd.
  rewrite calculate_with_accruals.
  rewrite (sum_with_accruals zero add hours_of) by done.
  rewrite (accruals_total now status_changes first final) by done.
  unfold sum_with. by rewrite map_fold_empty, Hzero.
Qed.

Lemma durations_account_for_elapsed_time_witness :
  total_timedelta (accruals (t0 + 100 * hour) rounding_changes) = 18 * minute
  ∧ _calculate_status_durations_binary64 (t0 + 100 * hour) rounding_changes
    = accrue_all PrimFloat.zero PrimFloat.add hours_binary64
        [("New Issues", 0); ("New Issues", 6 * minute);
         ("In Progress", 12 * minute)] ∅
  ∧ (Qc_of_Z 3600000000
     * sum_with 0%Qc Qcplus
         (calculate_with 0%Qc Qcplus hours_exact (t0 + 100 * hour)
            rounding_changes))%Qc
    = Qc_of_Z (18 * minute)
  ∧ sum_with 0%Qc Qcplus
      (calculate_with 0%Qc Qcplus hours_exact (t0 + 100 * hour) rounding_changes)
    = hours_exact (18 * minute).
Proof.
  destruct (durations_account_for_elapsed_time PrimFloat.zero PrimFloat.add
              hours_binary64 (t0 + 100 * hour) rounding_changes
              (mkChange "None" "New Issues" t0)
              (mkChange "In Progress" "Done" (t0 + 18 * minute))
              eq_refl eq_refl) as (_ & Htotal & Hmap & _ & _ & Hexact).
  destruct (durations_account_for_elapsed_time 0%Qc Qcplus
              hours_exact (t0 + 100 * hour) rounding_changes
              (mkChange "None" "New Issues" t0)
              (mkChange "In Progress" "Done" (t0 + 18 * minute))
              eq_refl eq_refl) as (_ & _ & _ & _ & Hsum & _).
  split; [rewrite Htotal; reflexivity|].
  split; [exact Hmap|].
  split; [rewrite Hexact; reflexivity|].
  rewrite Hsum.
  - f_equal.
  - intros. apply Qcplus_assoc.
  - intros. apply Qcplus_comm.
  - intros. apply Qcplus_0_l.
  - apply hours_exact_zero.
  - apply hours_exact_add.
Defined.

(** C2, amended: for every ticket with at least one status change, in
    whatever arithmetic the hours are computed,
    - the first change of the sorted list is the earliest and the last one
      the latest;
    - the result does not depend on the fields of the ticket, its creation
      time among them;
    - the map of the ticket is the result of its accruals, of which the
      first gives "New Issues" the hours of no time at all, and which add
      up, exactly, to the time from the earliest change to the latest one
      when that leads to "Done", and to [now] otherwise;
    - where the addition is associative and commutative with zero as its
      unit and the hours of a sum are the sum of the hours, the entries of
      the map add up to the hours of that time;
    - in exact rationals, 3600 * 10^6 times the sum of the entries is that
      time in microseconds. *)
Theorem ticket_durations_start_at_first_transition {H : Type} (zero : H)
    (add : H → H → H) (hours_of : Z → H) (strptime : string → Exc Z)
    (now : Z) (issue : Issue) (status_changes : list StatusChange)
    (first final : StatusChange) :
  _get_status_changes strptime issue = Ok status_changes →
  head status_changes = Some first →
  last status_changes = Some final →
  (∀ change, change ∈ status_changes →
     timestamp first ≤ timestamp change ≤ timestamp final)
  ∧ (∀ other_fields,
       analyze_issue_with zero add hours_of strptime now
         (mkIssue (key issue) (histories issue) other_fields)
       = analyze_issue_with zero add hours_of strptime now issue)
  ∧ analyze_issue_with zero add hours_of strptime now issue
    = Ok (accrue_all zero add hours_of (accruals now status_changes) ∅)
  ∧ head (accruals now status_changes) = Some ("New Issues", 0)
  ∧ total_timedelta (accruals now status_changes)
    = accrual_end now final - timestamp first
  ∧ ((∀ x y z, add x (add y z) = add (add x y) z) →
     (∀ x y, add x y = add y x) →
     (∀ x, add zero x = x) →
     hours_of 0 = zero →
     (∀ a b, hours_of (a + b) = add (hours_of a) (hours_of b)) →
     ∃ d, analyze_issue_with zero add hours_of strptime now issue = Ok d
          ∧ sum_with zero add d
            = hours_of (accrual_end now final - timestamp first))
  ∧ ∃ d, analyze_issue_with 0%Qc Qcplus hours_exact strptime now issue = Ok d
         ∧ (Qc_of_Z 3600000000 * sum_with 0%Qc Qcplus d)%Qc
           = Qc_of_Z (accrual_end now final - timestamp first).
Proof.
  intros Hget Hhead Hlast.
  pose proof (get_status_changes_ascending strptime issue status_changes Hget)
    as Hasc.
  assert (∀ (A : Type) (z : A) (ad : A → A → A) (h : Z → A),
            analyze_issue_with z ad h strptime now issue
            = Ok (calculate_with z ad h now status_changes)) as Hrun.
  { intros A z ad h. unfold analyze_issue_with. by rewrite Hget. }
  split.
  { intros change Hin. split.
    - by apply (ascending_head_min timestamp status_changes).
    - by apply (ascending_last_max timestamp status_changes). }
  split; [done|].
  split; [by rewrite Hrun, calculate_with_accruals|].
  split; [by apply (accruals_head now status_changes first)|].
  split; [by apply accruals_total|].
  split.
  - intros Hassoc Hcomm Hzero Hh0 Hhadd. eexists. split; [apply Hrun|].
    rewrite calculate_with_accruals.
    rewrite (sum_with_accruals zero add hours_of) by done.
    rewrite (accruals_total now status_changes first final) by done.
    unfold sum_with. by rewrite map_fold_empty, Hzero.
  - eexists. split; [apply Hrun|]. by apply sum_with_exact.
Qed.

Lemma ticket_durations_start_at_first_transition_witness :
  strptime_sample (created (fields issue_open)) = Ok t0
  ∧ analyze_issue_with PrimFloat.zero PrimFloat.add hours_binary64
      strptime_sample (t0 + 10 * hour) issue_open
    = Ok (accrue_all PrimFloat.zero PrimFloat.add hours_binary64
            [("New Issues", 0); ("In Progress", 5 * hour)] ∅)
  ∧ total_timedelta (accruals (t0 + 10 * hour)
                       [mkChange "New" "In Progress" (t0 + 5 * hour)])
    = 5 * hour
  ∧ ∃ d, analyze_issue_with 0%Qc Qcplus hours_exact strptime_sample
           (t0 + 10 * hour) issue_open = Ok d
         ∧ sum_with 0%Qc Qcplus d = hours_exact (5 * hour).
Proof.
  destruct (ticket_durations_start_at_first_transition PrimFloat.zero
              PrimFloat.add hours_binary64 strptime_sample (t0 + 10 * hour)
              issue_open [mkChange "New" "In Progress" (t0 + 5 * hour)]
              (mkChange "New" "In Progress" (t0 + 5 * hour))
              (mkChange "New" "In Progress" (t0 + 5 * hour))
              eq_refl eq_refl eq_refl) as (_ & _ & Hmap & _ & Htotal & _).
  destruct (ticket_durations_start_at_first_transition 0%Qc
              Qcplus hours_exact strptime_sample (t0 + 10 * hour)
              issue_open [mkChange "New" "In Progress" (t0 + 5 * hour)]
              (mkChange "New" "In Progress" (t0 + 5 * hour))
              (mkChange "New" "In Progress" (t0 + 5 * hour))
              eq_refl eq_refl eq_refl) as (_ & _ & _ & _ & _ & Hsum & _).
  split; [reflexivity|].
  split; [rewrite Hmap; reflexivity|].
  split; [rewrite Htotal; reflexivity|].
  destruct Hsum as (d & Hd & Hsum).
  - intros. apply Qcplus_assoc.
  - intros. apply Qcplus_comm.
  - intros. apply Qcplus_0_l.
  - apply hours_exact_zero.
  - apply hours_exact_add.
  - exists d. split; [exact Hd|]. rewrite Hsum. f_equal.
Defined.

(** * The analysis time *)

(** The analysis time enters the result through the last accrual alone,
    in whatever arithmetic the hours are computed.  When the last change
    leads to "Done" the map is the same at any time.  Otherwise the maps of
    two analysis times are one and the same map with one more accrual to the
    status the last change leads to, of the hours from the last change to
    the analysis time; every other entry is the same. *)
Theorem later_analysis_accrues_to_final_status {H : Type} (zero : H)
    (add : H → H → H) (hours_of : Z → H) (now later : Z)
    (status_changes : list StatusChange) (final : StatusChange) :
  last status_changes = Some final →
  (to_status final = "Done" →
   calculate_with zero add hours_of later status_changes
   = calculate_with zero add hours_of now status_changes)
  ∧ (∀ status, status ≠ to_status final →
       calculate_with zero add hours_of later status_changes !! status
       = calculate_with zero add hours_of now status_changes !! status)
  ∧ (to_status final ≠ "Done" →
     ∃ d, calculate_with zero add hours_of now status_changes
          = accrue_with zero add (to_status final)
              (hours_of (now - timestamp final)) d
          ∧ calculate_with zero add hours_of later status_changes
            = accrue_with zero add (to_status final)
                (hours_of (later - timestamp final)) d).
Proof.
  intros Hlast.
  split; [by apply calculate_with_done|].
  split; [intros status Hne; by apply (calculate_with_other_status _ _ _ _ _ _ final)|].
  intros Hopen.
  destruct status_changes as [|first rest]; [done|].
  exists (accrue_all zero add hours_of
            (replay_accruals (first :: rest) "New Issues" (timestamp first)) ∅).
  rewrite !calculate_with_accruals. unfold accruals. rewrite Hlast.
  rewrite !decide_True by done.
  unfold accrue_all. by rewrite !foldl_app.
Qed.

Lemma later_analysis_accrues_to_final_status_witness :
  _calculate_status_durations_binary64 (t0 + 200 * hour) rounding_changes
  = _calculate_status_durations_binary64 (t0 + 100 * hour) rounding_changes
  ∧ _calculate_status_durations_binary64 (t0 + 10 * hour)
      [mkChange "New" "In Progress" (t0 + 5 * hour)] !! "New Issues"
    = _calculate_status_durations_binary64 (t0 + 7 * hour)
        [mkChange "New" "In Progress" (t0 + 5 * hour)] !! "New Issues".
Proof.
  split.
  - apply (later_analysis_accrues_to_final_status PrimFloat.zero PrimFloat.add
             hours_binary64 (t0 + 100 * hour) (t0 + 200 * hour) rounding_changes
             (mkChange "In Progress" "Done" (t0 + 18 * minute)) eq_refl).
    reflexivity.
  - apply (later_analysis_accrues_to_final_status PrimFloat.zero PrimFloat.add
             hours_binary64 (t0 + 7 * hour) (t0 + 10 * hour)
             [mkChange "New" "In Progress" (t0 + 5 * hour)]
             (mkChange "New" "In Progress" (t0 + 5 * hour)) eq_refl).
    done.
Defined.
